(** * The LVM snapshotter's command executor and volume lifecycle operations

    A shallow embedding of [snapshots/lvm/lvm.go].  The file exists in two
    revisions, which differ in where the lock is taken, in how a volume is
    unmounted and in whether formatting is part of volume creation:

    - [LockArg]: every lifecycle operation receives [lock sync.Mutex] as its
      first argument, [formatVolume] is a function of its own and removal
      runs [umount];
    - [GlobalMutex]: [runCommand] takes the package-level [var mutex],
      [createLVMVolume] creates, activates and formats, and removal runs
      [blkdeactivate].

    External processes are modelled by an oracle [sys] that maps the events
    of the run so far and the command being spawned to the command's combined
    output and error.  Every operation is a function in a state monad over
    the [World]: the package-level mutex and the log of events.  Concurrent
    callers are goroutines that run the events of their calls one step at a
    time, in any interleaving. *)

From Stdlib Require Import String Ascii List Bool Arith Lia ZArith.
Import ListNotations.
Open Scope string_scope.

(** ** Go standard library: [strings] *)

Module strings.

(** [strings.Contains(s, substr)]: [substr] occurs in [s]. *)
Fixpoint Contains (s substr : string) : bool :=
  String.prefix substr s
  || match s with
     | EmptyString => false
     | String _ s' => Contains s' substr
     end.

(** [strings.Join(elems, sep)]. *)
Definition Join (elems : list string) (sep : string) : string :=
  String.concat sep elems.

End strings.

(** ** Go standard library: [path/filepath] on Unix *)

Module filepath.

Definition Separator : ascii := "/"%char.

(** The path elements of [path]: the pieces between separators. *)
Fixpoint elements (path : string) : list string :=
  match path with
  | EmptyString => [EmptyString]
  | String c rest =>
      if Ascii.eqb c Separator then EmptyString :: elements rest
      else match elements rest with
           | [] => [String c EmptyString]
           | e :: es => String c e :: es
           end
  end.

(** One iteration of the loop of [Clean] over a whole path element; [out]
    holds the elements written so far, the last one first.  An empty element
    and [.] are dropped; [..] removes the last real element, is dropped at
    the root and is kept in front of a relative path; any other element is
    appended. *)
Definition clean_element (rooted : bool) (out : list string) (e : string)
  : list string :=
  if (e =? "")%string then out
  else if (e =? ".")%string then out
  else if (e =? "..")%string then
    match out with
    | top :: rest => if (top =? "..")%string then e :: out else rest
    | [] => if rooted then [] else [e]
    end
  else e :: out.

(** [filepath.Clean(path)]. *)
Definition Clean (path : string) : string :=
  match path with
  | EmptyString => "."
  | String c _ =>
      let rooted := Ascii.eqb c Separator in
      let out := rev (fold_left (clean_element rooted) (elements path) []) in
      if rooted then String Separator (strings.Join out "/")
      else match out with
           | [] => "."
           | _ => strings.Join out "/"
           end
  end.

(** [filepath.Join(elem...)]: leading empty elements are skipped, the rest
    is joined with separators and cleaned. *)
Fixpoint Join (elem : list string) : string :=
  match elem with
  | [] => ""
  | e :: rest =>
      if (e =? "")%string then Join rest
      else Clean (strings.Join elem "/")
  end.

(** A name that stands for itself in a path: not empty, no separator in it,
    and neither [.] nor [..]. *)
Fixpoint no_separator (s : string) : bool :=
  match s with
  | EmptyString => true
  | String c rest => negb (Ascii.eqb c Separator) && no_separator rest
  end.

Definition plain_name (s : string) : bool :=
  negb (s =? "")%string && negb (s =? ".")%string && negb (s =? "..")%string
  && no_separator s.

End filepath.

(** ** [github.com/pkg/errors] and the errors of [os/exec] *)

Module errors.

(** A non-nil Go [error]: one returned by [os/exec] (an exit status, a
    failure to start the program), or such an error wrapped with a message. *)
Inductive error : Type :=
| ExecError (msg : string)
| withMessage (cause : error) (msg : string).

(** The [Error()] method. *)
Fixpoint Error (e : error) : string :=
  match e with
  | ExecError msg => msg
  | withMessage cause msg => msg ++ ": " ++ Error cause
  end.

(** [errors.Wrap(err, message)]; [None] is Go's [nil]. *)
Definition Wrap (err : option error) (message : string) : option error :=
  match err with
  | None => None
  | Some e => Some (withMessage e message)
  end.

End errors.
Import errors.

(** ** Processes, events and the world *)

(** [syscall.SIGTERM]. *)
Definition SIGTERM : Z := 15%Z.

(** An [exec.Cmd] as [runCommand] sets it up.  The environment is the
    caller's ([os.Environ()]) and is not recorded. *)
Record Cmd : Type := mkCmd {
  Path : string;
  Args : list string;
  Pdeathsig : Z;
  Setpgid : bool
}.

(** The two mutexes of the code: the package-level [var mutex] and the
    [lock] argument, which every call receives as a copy of its own.  An
    event is a step that other goroutines can observe: a mutex taken or
    released, a process started, a process that ended (without error or
    not), a sleep. *)
Inductive mutex_ref : Type :=
| package_mutex
| lock_argument.

Inductive event : Type :=
| EvLock (m : mutex_ref)
| EvUnlock (m : mutex_ref)
| EvStart (c : Cmd)
| EvExit (c : Cmd) (ok : bool)
| EvSleep (ns : Z).

(** What [CombinedOutput] returns. *)
Record Output : Type := mkOutput {
  output_bytes : string;
  output_err : option error
}.

(** [err == nil]. *)
Definition succeeded (r : Output) : bool :=
  match output_err r with
  | None => true
  | Some _ => false
  end.

(** The outside world: what a command answers, given the events so far. *)
Definition System : Type := list event -> Cmd -> Output.

Record World : Type := mkWorld {
  mutex : bool;
  log : list event
}.

Definition emit (evs : list event) (w : World) : World :=
  mkWorld (mutex w) (log w ++ evs).

(** ** The monad of the operations

    [None] is a call that does not return: it waits for a mutex that nobody
    will release. *)

Definition M (A : Type) : Type := World -> option (A * World).

Definition Return {A : Type} (a : A) : M A := fun w => Some (a, w).

Definition bind {A B : Type} (m : M A) (k : A -> M B) : M B :=
  fun w => match m w with
           | Some (a, w') => k a w'
           | None => None
           end.

Definition blocked {A : Type} : M A := fun _ => None.

Declare Scope go_scope.
Delimit Scope go_scope with go.
Notation "x <- m ;; k" := (bind m (fun x => k))
  (at level 61, m at next level, right associativity) : go_scope.
Notation "m ;;; k" := (bind m (fun _ => k))
  (at level 61, right associativity) : go_scope.
Open Scope go_scope.

(** Go's [append] on a slice of strings. *)
Definition append (s elems : list string) : list string := (s ++ elems)%list.

(** [sync.Mutex] as a value: [true] when locked. *)
Definition Mutex : Type := bool.

Definition retries : nat := 10.

(** [time.Nanosecond]. *)
Definition Nanosecond : Z := 1%Z.

(** [exec.Command(cmd, args...)] with the [SysProcAttr] of [runCommand]. *)
Definition Command (cmd : string) (args : list string) : Cmd :=
  mkCmd cmd args SIGTERM true.

(** [time.Sleep]. *)
Definition Sleep (ns : Z) : M unit := fun w => Some (tt, emit [EvSleep ns] w).

Section Executor.

Variable sys : System.

(** [c.CombinedOutput()]: the process starts, runs to its end and its
    output is collected. *)
Definition CombinedOutput (c : Cmd) : M Output :=
  fun w =>
    let r := sys (log w) c in
    Some (r, emit [EvStart c; EvExit c (succeeded r)] w).

(** The loop [for ret < retries] of [runCommand], the same in both
    revisions.  [n] bounds the iterations that are left. *)
Fixpoint runCommand_loop (n : nat) (cmd : string) (args : list string)
    (ret : nat) (output : string) (err : option error) : M Output :=
  if (ret <? retries)%nat then
    match n with
    | O => blocked
    | S n' =>
        r <- CombinedOutput (Command cmd args) ;;
        match output_err r with
        | None => Return r
        | Some e =>
            Sleep (100000 * Nanosecond)%Z ;;;
            runCommand_loop n' cmd args (S ret) (output_bytes r) (Some e)
        end
    end
  else Return (mkOutput output err).

End Executor.

(** [snapshots.Kind], the snapshot-kind hint of [createLVMVolume]. *)
Inductive Kind : Type :=
| KindUnknown
| KindView
| KindActive
| KindCommitted.

(** ** Revision with the lock as an argument (lines 1-209) *)

Module LockArg.

Section Operations.

Variable TrimSpace : string -> string.
Variable sys : System.

(** [lock.Lock()] and [lock.Unlock()] on the function's own copy of the
    mutex.  Locking a copy that is locked never returns; unlocking one that
    is not locked is a fatal error. *)
Definition Lock (lock : Mutex) : M Mutex :=
  fun w => if lock then None
           else Some (true, emit [EvLock lock_argument] w).

Definition Unlock (lock : Mutex) : M Mutex :=
  fun w => if lock then Some (false, emit [EvUnlock lock_argument] w)
           else None.

(** [lock.Lock(); defer lock.Unlock()] around the body of a function. *)
Definition with_lock {A : Type} (lock : Mutex) (body : M A) : M A :=
  held <- Lock lock ;;
  r <- body ;;
  Unlock held ;;;
  Return r.

Definition runCommand (cmd : string) (args : list string) : M Output :=
  r <- runCommand_loop sys retries cmd args 0 "" None ;;
  Return (mkOutput (TrimSpace (output_bytes r)) (output_err r)).

Definition formatVolume (vgname lvname fstype : string) : M (option error) :=
  let mkfsArgs : list string := [] in
  let mkfsArgs :=
    if (fstype =? "ext4")%string then
      append mkfsArgs
        ["-E"; "nodiscard,lazy_itable_init=0,lazy_journal_init=0"]
    else if (fstype =? "xfs")%string then append mkfsArgs ["-K"]
    else mkfsArgs in
  let cmd := "mkfs." ++ fstype in
  let mkfsArgs := append mkfsArgs [filepath.Join ["/dev/"; vgname; lvname]] in
  r <- runCommand cmd mkfsArgs ;;
  Return (output_err r).

Definition createLVMVolume (lock : Mutex)
    (lvname vgname lvpoolname size parent : string) (kind : Kind) : M Output :=
  let cmd := "lvcreate" in
  let args : list string := [] in
  with_lock lock (
    let args :=
      if negb (parent =? "")%string then
        append args ["--name"; lvname; "--snapshot"; vgname ++ "/" ++ parent]
      else
        append args ["--virtualsize"; size; "--name"; lvname;
                 "--thin"; vgname ++ "/" ++ lvpoolname] in
    r <- runCommand cmd args ;;
    match output_err r with
    | Some e => Return (mkOutput (output_bytes r)
                          (Wrap (Some e) "Unable to create volume"))
    | None => Return r
    end).

Definition removeLVMVolume (lock : Mutex) (lvname vgname : string)
  : M Output :=
  with_lock lock (
    let cmd := "umount" in
    let args := ["--lazy"; "--force"; "--all-targets";
                 filepath.Join ["/dev"; vgname; lvname]] in
    r <- runCommand cmd args ;;
    match output_err r with
    | Some e =>
        if negb (strings.Contains (output_bytes r) "not mounted") then
          Return (mkOutput (output_bytes r)
                    (Wrap (Some e) "Unable to unmount volume"))
        else
          runCommand "lvremove" ["-y"; vgname ++ "/" ++ lvname]
    | None => runCommand "lvremove" ["-y"; vgname ++ "/" ++ lvname]
    end).

Definition createVolumeGroup (lock : Mutex) (drive vgname : string)
  : M Output :=
  with_lock lock (runCommand "vgcreate" [vgname; drive]).

Definition createLogicalThinPool (lock : Mutex) (vgname lvpool : string)
  : M Output :=
  with_lock lock (
    let cmd := "lvcreate" in
    let args := ["--thinpool"; lvpool; "--extents"; "90%FREE"; vgname] in
    r <- runCommand cmd args ;;
    match output_err r with
    | Some e =>
        if (Error e =? "exit status 5")%string then
          Return (mkOutput (output_bytes r) None)
        else Return r
    | None => Return r
    end).

Definition deleteVolumeGroup (lock : Mutex) (vgname : string) : M Output :=
  with_lock lock (runCommand "vgremove" ["-y"; vgname]).

Definition checkVG (lock : Mutex) (vgname : string) : M Output :=
  with_lock lock
    (runCommand "vgs" [vgname; "--options"; "vg_name"; "--no-headings"]).

Definition checkLV (lock : Mutex) (vgname lvname : string) : M Output :=
  with_lock lock
    (runCommand "lvs"
       [vgname ++ "/" ++ lvname; "--options"; "lv_name"; "--no-heading"]).

Definition toggleactivateLV (lock : Mutex) (vgname lvname : string)
    (activate : bool) : M Output :=
  with_lock lock (
    let cmd := "lvchange" in
    let args := ["-K"; vgname ++ "/" ++ lvname; "-a"] in
    let args := if activate then append args ["y"] else append args ["n"] in
    runCommand cmd args).

Definition toggleactivateVG (lock : Mutex) (vgname : string)
    (activate : bool) : M Output :=
  with_lock lock (
    let cmd := "vgchange" in
    let args := ["-K"; vgname; "-a"] in
    let args := if activate then append args ["y"] else append args ["n"] in
    runCommand cmd args).

(** A call of a function of the package, by a goroutine of the snapshotter.
    None of them is exported: the callers are in the package. *)
Inductive call : Type :=
| FormatVolume (vgname lvname fstype : string)
| CreateLVMVolume (lvname vgname lvpoolname size parent : string)
    (kind : Kind)
| RemoveLVMVolume (lvname vgname : string)
| CreateVolumeGroup (drive vgname : string)
| CreateLogicalThinPool (vgname lvpool : string)
| DeleteVolumeGroup (vgname : string)
| CheckVG (vgname : string)
| CheckLV (vgname lvname : string)
| ToggleactivateLV (vgname lvname : string) (activate : bool)
| ToggleactivateVG (vgname : string) (activate : bool).

(** The call, with [lock] the value of the caller's mutex: Go passes the
    [sync.Mutex] argument by value, so that the function works on a copy.
    [formatVolume] returns an error only; its call yields it with an empty
    output. *)
Definition perform (lock : Mutex) (c : call) : M Output :=
  match c with
  | FormatVolume vgname lvname fstype =>
      err <- formatVolume vgname lvname fstype ;;
      Return (mkOutput "" err)
  | CreateLVMVolume lvname vgname lvpoolname size parent kind =>
      createLVMVolume lock lvname vgname lvpoolname size parent kind
  | RemoveLVMVolume lvname vgname => removeLVMVolume lock lvname vgname
  | CreateVolumeGroup drive vgname => createVolumeGroup lock drive vgname
  | CreateLogicalThinPool vgname lvpool =>
      createLogicalThinPool lock vgname lvpool
  | DeleteVolumeGroup vgname => deleteVolumeGroup lock vgname
  | CheckVG vgname => checkVG lock vgname
  | CheckLV vgname lvname => checkLV lock vgname lvname
  | ToggleactivateLV vgname lvname activate =>
      toggleactivateLV lock vgname lvname activate
  | ToggleactivateVG vgname activate =>
      toggleactivateVG lock vgname activate
  end.

End Operations.

End LockArg.

(** ** Revision with the package-level mutex (lines 210-407) *)

Module GlobalMutex.

Section Operations.

Variable TrimSpace : string -> string.
Variable sys : System.

(** [mutex.Lock()] and [mutex.Unlock()] on [var mutex sync.Mutex]. *)
Definition Lock : M unit :=
  fun w => if mutex w then None
           else Some (tt, mkWorld true (log w ++ [EvLock package_mutex])).

Definition Unlock : M unit :=
  fun w => if mutex w
           then Some (tt, mkWorld false (log w ++ [EvUnlock package_mutex]))
           else None.

Definition runCommand (cmd : string) (args : list string) : M Output :=
  Lock ;;;
  r <- runCommand_loop sys retries cmd args 0 "" None ;;
  let result := mkOutput (TrimSpace (output_bytes r)) (output_err r) in
  Unlock ;;;
  Return result.

Definition toggleactivateLV (vgname lvname : string) (activate : bool)
  : M Output :=
  let cmd := "lvchange" in
  let args := ["-K"; vgname ++ "/" ++ lvname; "-a"] in
  let args := if activate then append args ["y"] else append args ["n"] in
  runCommand cmd args.

Definition createLVMVolume
    (lvname vgname lvpoolname size fstype parent : string) (kind : Kind)
  : M Output :=
  let cmd := "lvcreate" in
  let args : list string := [] in
  let args :=
    if negb (parent =? "")%string then
      append args ["--name"; lvname; "--snapshot"; vgname ++ "/" ++ parent]
    else
      append args ["--virtualsize"; size; "--name"; lvname;
               "--thin"; vgname ++ "/" ++ lvpoolname] in
  r <- runCommand cmd args ;;
  match output_err r with
  | Some e => Return (mkOutput (output_bytes r)
                        (Wrap (Some e) "Unable to create volume"))
  | None =>
      r <- toggleactivateLV vgname lvname true ;;
      match output_err r with
      | Some e => Return (mkOutput (output_bytes r)
                            (Wrap (Some e) "Unable to activate thin volume"))
      | None =>
          if (parent =? "")%string then
            let mkfsArgs : list string := [] in
            let mkfsArgs :=
              if (fstype =? "ext4")%string then
                append mkfsArgs
                  ["-E"; "nodiscard,lazy_itable_init=0,lazy_journal_init=0"]
              else if (fstype =? "xfs")%string then append mkfsArgs ["-K"]
              else mkfsArgs in
            let cmd := "mkfs." ++ fstype in
            let mkfsArgs :=
              append mkfsArgs [filepath.Join ["/dev/"; vgname; lvname]] in
            runCommand cmd mkfsArgs
          else Return r
      end
  end.

Definition removeLVMVolume (lvname vgname : string) : M Output :=
  let cmd := "blkdeactivate" in
  let args := ["-u"; filepath.Join ["/dev"; vgname; lvname]] in
  r <- runCommand cmd args ;;
  match output_err r with
  | Some e => Return (mkOutput (output_bytes r)
                        (Wrap (Some e) "Unable to unmount volume"))
  | None => runCommand "lvremove" ["-y"; vgname ++ "/" ++ lvname]
  end.

Definition createVolumeGroup (drive vgname : string) : M Output :=
  runCommand "vgcreate" [vgname; drive].

Definition createLogicalThinPool (vgname lvpool : string) : M Output :=
  let cmd := "lvcreate" in
  let args := ["--thinpool"; lvpool; "--extents"; "90%FREE"; vgname] in
  r <- runCommand cmd args ;;
  match output_err r with
  | Some e =>
      if (Error e =? "exit status 5")%string then
        Return (mkOutput (output_bytes r) None)
      else Return r
  | None => Return r
  end.

Definition deleteVolumeGroup (vgname : string) : M Output :=
  runCommand "vgremove" ["-y"; vgname].

Definition checkVG (vgname : string) : M Output :=
  runCommand "vgs" [vgname; "--options"; "vg_name"; "--no-headings"].

Definition checkLV (vgname lvname : string) : M Output :=
  runCommand "lvs"
    [vgname ++ "/" ++ lvname; "--options"; "lv_name"; "--no-heading"].

Definition toggleactivateVG (vgname : string) (activate : bool) : M Output :=
  let cmd := "vgchange" in
  let args := ["-K"; vgname; "-a"] in
  let args := if activate then append args ["y"] else append args ["n"] in
  runCommand cmd args.

(** A call of a lifecycle operation by a goroutine of the snapshotter. *)
Inductive call : Type :=
| CreateLVMVolume (lvname vgname lvpoolname size fstype parent : string)
    (kind : Kind)
| RemoveLVMVolume (lvname vgname : string)
| CreateVolumeGroup (drive vgname : string)
| CreateLogicalThinPool (vgname lvpool : string)
| DeleteVolumeGroup (vgname : string)
| CheckVG (vgname : string)
| CheckLV (vgname lvname : string)
| ToggleactivateLV (vgname lvname : string) (activate : bool)
| ToggleactivateVG (vgname : string) (activate : bool).

Definition perform (c : call) : M Output :=
  match c with
  | CreateLVMVolume lvname vgname lvpoolname size fstype parent kind =>
      createLVMVolume lvname vgname lvpoolname size fstype parent kind
  | RemoveLVMVolume lvname vgname => removeLVMVolume lvname vgname
  | CreateVolumeGroup drive vgname => createVolumeGroup drive vgname
  | CreateLogicalThinPool vgname lvpool => createLogicalThinPool vgname lvpool
  | DeleteVolumeGroup vgname => deleteVolumeGroup vgname
  | CheckVG vgname => checkVG vgname
  | CheckLV vgname lvname => checkLV vgname lvname
  | ToggleactivateLV vgname lvname activate =>
      toggleactivateLV vgname lvname activate
  | ToggleactivateVG vgname activate => toggleactivateVG vgname activate
  end.

End Operations.

End GlobalMutex.

(** ** Runs of the executor *)

Open Scope list_scope.

(** The events of [k] attempts that failed: each one starts the process,
    waits for it and sleeps. *)
Fixpoint failed_attempts (c : Cmd) (k : nat) : list event :=
  match k with
  | O => []
  | S k' =>
      EvStart c :: EvExit c false :: EvSleep (100000 * Nanosecond)%Z
      :: failed_attempts c k'
  end.

(** Attempt number [i] (from 0) of [c], made after the events [h] and [i]
    failed attempts, fails. *)
Definition attempt_fails (sys : System) (h : list event) (c : Cmd) (i : nat)
  : Prop :=
  output_err (sys (h ++ failed_attempts c i) c) <> None.

(** The two ways a run of at most [m] attempts ends: attempt [j] is the
    first to succeed, or all [m] attempts fail.  The run adds the events
    [evs] and yields the answer [r] of its last attempt. *)
Inductive run_outcome (sys : System) (m : nat) (h : list event) (c : Cmd)
  : list event -> Output -> Prop :=
| run_success (j : nat) :
    j < m ->
    (forall i, i < j -> attempt_fails sys h c i) ->
    output_err (sys (h ++ failed_attempts c j) c) = None ->
    run_outcome sys m h c
      (failed_attempts c j ++ [EvStart c; EvExit c true])
      (sys (h ++ failed_attempts c j) c)
| run_exhausted (j : nat) :
    m = S j ->
    (forall i, i < m -> attempt_fails sys h c i) ->
    run_outcome sys m h c
      (failed_attempts c m)
      (sys (h ++ failed_attempts c j) c).

(** What [runCommand] returns when the answer of its last attempt is [r]:
    [strings.TrimSpace(string(output)), err]. *)
Definition trimmed (TrimSpace : string -> string) (r : Output) : Output :=
  mkOutput (TrimSpace (output_bytes r)) (output_err r).

(** The commands started in a list of events, in order. *)
Fixpoint started (evs : list event) : list Cmd :=
  match evs with
  | [] => []
  | EvStart c :: rest => c :: started rest
  | _ :: rest => started rest
  end.

(** The commands that ended without error in a list of events, in order. *)
Fixpoint finished (evs : list event) : list Cmd :=
  match evs with
  | [] => []
  | EvExit c true :: rest => c :: finished rest
  | _ :: rest => finished rest
  end.

(** The events of a run made under the package-level mutex. *)
Definition locked (evs : list event) : list event :=
  EvLock package_mutex :: evs ++ [EvUnlock package_mutex].

(** The events of a run made under a function's copy of the lock. *)
Definition locked_copy (evs : list event) : list event :=
  EvLock lock_argument :: evs ++ [EvUnlock lock_argument].

(** ** The commands of volume creation *)

(** The create step: a snapshot of the parent, or a thin volume of the
    requested size in the pool. *)
Definition lvcreate_command (lvname vgname lvpoolname size parent : string)
  : Cmd :=
  Command "lvcreate"
    (if negb (parent =? "")%string then
       ["--name"; lvname; "--snapshot"; (vgname ++ "/" ++ parent)%string]
     else
       ["--virtualsize"; size; "--name"; lvname;
        "--thin"; (vgname ++ "/" ++ lvpoolname)%string]).

(** The activation step. *)
Definition lvchange_command (vgname lvname : string) : Cmd :=
  Command "lvchange" ["-K"; (vgname ++ "/" ++ lvname)%string; "-a"; "y"].

(** The format step. *)
Definition mkfs_command (vgname lvname fstype : string) : Cmd :=
  Command ("mkfs." ++ fstype)%string
    ((if (fstype =? "ext4")%string then
        ["-E"; "nodiscard,lazy_itable_init=0,lazy_journal_init=0"]
      else if (fstype =? "xfs")%string then ["-K"]
      else [])
     ++ [filepath.Join ["/dev/"; vgname; lvname]]).


(** The four ways [createLVMVolume] of the revision with the package-level
    mutex ends, with the events it adds after [h] and what it returns: the
    create step fails; the activation fails; a snapshot is activated; a
    fresh volume is activated and formatted (the format step may fail). *)
Inductive creation (TrimSpace : string -> string) (sys : System)
    (h : list event) (lvname vgname lvpoolname size fstype parent : string)
  : list event -> Output -> Prop :=
| creation_create_failed (ev1 : list event) (r1 : Output) (e : error) :
    run_outcome sys retries (h ++ [EvLock package_mutex])
      (lvcreate_command lvname vgname lvpoolname size parent) ev1 r1 ->
    output_err r1 = Some e ->
    creation TrimSpace sys h lvname vgname lvpoolname size fstype parent
      (locked ev1)
      (mkOutput (TrimSpace (output_bytes r1))
         (Some (withMessage e "Unable to create volume")))
| creation_activation_failed (ev1 ev2 : list event) (r1 r2 : Output)
    (e : error) :
    run_outcome sys retries (h ++ [EvLock package_mutex])
      (lvcreate_command lvname vgname lvpoolname size parent) ev1 r1 ->
    output_err r1 = None ->
    run_outcome sys retries ((h ++ locked ev1) ++ [EvLock package_mutex])
      (lvchange_command vgname lvname) ev2 r2 ->
    output_err r2 = Some e ->
    creation TrimSpace sys h lvname vgname lvpoolname size fstype parent
      (locked ev1 ++ locked ev2)
      (mkOutput (TrimSpace (output_bytes r2))
         (Some (withMessage e "Unable to activate thin volume")))
| creation_snapshot (ev1 ev2 : list event) (r1 r2 : Output) :
    run_outcome sys retries (h ++ [EvLock package_mutex])
      (lvcreate_command lvname vgname lvpoolname size parent) ev1 r1 ->
    output_err r1 = None ->
    run_outcome sys retries ((h ++ locked ev1) ++ [EvLock package_mutex])
      (lvchange_command vgname lvname) ev2 r2 ->
    output_err r2 = None ->
    parent <> EmptyString ->
    creation TrimSpace sys h lvname vgname lvpoolname size fstype parent
      (locked ev1 ++ locked ev2)
      (trimmed TrimSpace r2)
| creation_formatted (ev1 ev2 ev3 : list event) (r1 r2 r3 : Output) :
    run_outcome sys retries (h ++ [EvLock package_mutex])
      (lvcreate_command lvname vgname lvpoolname size parent) ev1 r1 ->
    output_err r1 = None ->
    run_outcome sys retries ((h ++ locked ev1) ++ [EvLock package_mutex])
      (lvchange_command vgname lvname) ev2 r2 ->
    output_err r2 = None ->
    parent = EmptyString ->
    run_outcome sys retries
      (((h ++ locked ev1) ++ locked ev2) ++ [EvLock package_mutex])
      (mkfs_command vgname lvname fstype) ev3 r3 ->
    creation TrimSpace sys h lvname vgname lvpoolname size fstype parent
      (locked ev1 ++ locked ev2 ++ locked ev3)
      (trimmed TrimSpace r3).

(** ** Goroutines

    Concurrent callers are goroutines that each run the events of a call,
    one event at a time and in any interleaving.  A goroutine that wants a
    mutex that is held cannot step.  The package-level mutex is one for all
    goroutines; the [lock] argument is a copy that belongs to the call. *)

(** The world in which a call starts. *)
Definition idle : World := mkWorld false [].

(** The events of a call that runs alone. *)
Definition events_of {A : Type} (op : M A) : list event :=
  match op idle with
  | Some (_, w) => log w
  | None => []
  end.

Record goroutine : Type := mkGoroutine {
  todo : list event;
  copy_locked : bool;
  running : option Cmd
}.

Record machine : Type := mkMachine {
  package_lock : bool;
  goroutines : list goroutine
}.

(** One step of a goroutine, when the package-level mutex is [held] or
    not; [None] when it cannot step. *)
Definition step_goroutine (held : bool) (g : goroutine)
  : option (bool * goroutine) :=
  match todo g with
  | [] => None
  | EvLock package_mutex :: rest =>
      if held then None
      else Some (true, mkGoroutine rest (copy_locked g) (running g))
  | EvUnlock package_mutex :: rest =>
      if held
      then Some (false, mkGoroutine rest (copy_locked g) (running g))
      else None
  | EvLock lock_argument :: rest =>
      if copy_locked g then None
      else Some (held, mkGoroutine rest true (running g))
  | EvUnlock lock_argument :: rest =>
      if copy_locked g
      then Some (held, mkGoroutine rest false (running g))
      else None
  | EvStart c :: rest => Some (held, mkGoroutine rest (copy_locked g) (Some c))
  | EvExit _ _ :: rest => Some (held, mkGoroutine rest (copy_locked g) None)
  | EvSleep _ :: rest =>
      Some (held, mkGoroutine rest (copy_locked g) (running g))
  end.

Fixpoint replace_nth {A : Type} (i : nat) (a : A) (l : list A) : list A :=
  match l, i with
  | [], _ => []
  | _ :: rest, O => a :: rest
  | x :: rest, S i' => x :: replace_nth i' a rest
  end.

(** The scheduler lets goroutine [i] make a step. *)
Definition schedule (i : nat) (m : machine) : option machine :=
  match nth_error (goroutines m) i with
  | None => None
  | Some g =>
      match step_goroutine (package_lock m) g with
      | None => None
      | Some (held, g') =>
          Some (mkMachine held (replace_nth i g' (goroutines m)))
      end
  end.

Fixpoint run_schedule (s : list nat) (m : machine) : option machine :=
  match s with
  | [] => Some m
  | i :: rest =>
      match schedule i m with
      | None => None
      | Some m' => run_schedule rest m'
      end
  end.

(** The goroutines at the start, one for each list of events. *)
Definition spawn (programs : list (list event)) : machine :=
  mkMachine false (map (fun p => mkGoroutine p false None) programs).

Definition is_running (g : goroutine) : bool :=
  match running g with
  | Some _ => true
  | None => false
  end.

(** The number of external processes that exist. *)
Definition in_flight (m : machine) : nat :=
  length (filter is_running (goroutines m)).

(** Where a goroutine stands with respect to the package-level mutex: it
    does not hold it, it holds it, or it holds it and waits for the process
    it started. *)
Inductive phase : Type :=
| Out
| Held
| Waiting.

(** The phase after the events [es], when they follow the discipline of
    [runCommand]: processes are started and awaited, and the goroutine
    sleeps, only between [Lock] and [Unlock] of the package-level mutex. *)
Fixpoint walk (p : phase) (es : list event) : option phase :=
  match es with
  | [] => Some p
  | e :: rest =>
      match p, e with
      | Out, EvLock package_mutex => walk Held rest
      | Held, EvStart _ => walk Waiting rest
      | Waiting, EvExit _ _ => walk Held rest
      | Held, EvSleep _ => walk Held rest
      | Held, EvUnlock package_mutex => walk Out rest
      | _, _ => None
      end
  end.

(** The phase of a goroutine, read from what it still has to do. *)
Definition phase_of (es : list event) : phase :=
  match es with
  | EvExit _ _ :: _ => Waiting
  | EvStart _ :: _ | EvSleep _ :: _ | EvUnlock _ :: _ => Held
  | _ => Out
  end.

Definition holds (g : goroutine) : bool :=
  match phase_of (todo g) with
  | Out => false
  | _ => true
  end.

(** An operation that returns whenever it starts with the mutex free, and
    whose events follow the discipline. *)
Definition Serial {A : Type} (op : M A) : Prop :=
  forall w, mutex w = false ->
  exists a evs, op w = Some (a, emit evs w) /\ walk Out evs = Some Out.

(** The invariant of the goroutines that follow the discipline: each one is
    somewhere on its walk, a process runs only in a goroutine that waits
    for it, and the package-level mutex is held by exactly one goroutine
    when it is locked and by none when it is free. *)
Definition disciplined (g : goroutine) : Prop :=
  (exists p, walk p (todo g) = Some Out)
  /\ (is_running g = true -> phase_of (todo g) = Waiting).

Definition exclusive (m : machine) : Prop :=
  Forall disciplined (goroutines m)
  /\ length (filter holds (goroutines m))
     = if package_lock m then 1 else 0.

(** ** Sample systems and a sample [TrimSpace] *)

(** [strings.TrimSpace] on text in which it meets no byte above 0x7f: the
    white space is tab, line feed, vertical tab, form feed, carriage return
    and space. *)
Definition asciiSpace (c : ascii) : bool :=
  let n := nat_of_ascii c in
  ((n =? 9) || (n =? 10) || (n =? 11) || (n =? 12) || (n =? 13)
   || (n =? 32))%nat.

Fixpoint trim_left (s : string) : string :=
  match s with
  | EmptyString => EmptyString
  | String c rest => if asciiSpace c then trim_left rest else s
  end.

Fixpoint trim_right (s : string) : string :=
  match s with
  | EmptyString => EmptyString
  | String c rest =>
      let t := trim_right rest in
      if asciiSpace c && (t =? "")%string then EmptyString else String c t
  end.

Definition TrimSpace_ascii (s : string) : string := trim_right (trim_left s).

(** A system in which every command fails. *)
Definition always_fails : System :=
  fun _ _ => mkOutput "  device is busy
" (Some (ExecError "exit status 1")).

(** A system in which the first [k] processes fail and the later ones
    succeed. *)
Definition fails_first (k : nat) : System :=
  fun h _ =>
    if (length (started h) <? k)%nat
    then mkOutput "locked" (Some (ExecError "exit status 1"))
    else mkOutput "  done
" None.

(** A system that answers by the name of the program. *)
Definition by_program (answer : string -> Output) : System :=
  fun _ c => answer (Path c).

(** A system in which the programs of the [mkfs] family fail and the
    others succeed. *)
Definition mkfs_fails : System :=
  by_program (fun program =>
    if String.prefix "mkfs." program
    then mkOutput "mkfs.ext4: Device size reported to be zero"
           (Some (ExecError "exit status 1"))
    else mkOutput "" None).

(** A system in which every command ends with exit status 5. *)
Definition pool_exists : System :=
  fun _ _ =>
    mkOutput "  Logical Volume pool0 already exists
" (Some (ExecError "exit status 5")).

(** A system in which the unmount step ([umount], [blkdeactivate]) fails
    and says that the device is not mounted, and the other programs
    succeed. *)
Definition not_mounted : System :=
  by_program (fun program =>
    if (program =? "lvremove")%string
    then mkOutput "  Logical volume lv1 successfully removed
" None
    else mkOutput "umount: /dev/vg0/lv1: not mounted.
" (Some (ExecError "exit status 32"))).

(** ** Further readings of events, operations and machines *)

(** The sleeps in a list of events, in nanoseconds and in order. *)
Fixpoint sleeps (evs : list event) : list Z :=
  match evs with
  | [] => []
  | EvSleep ns :: rest => ns :: sleeps rest
  | _ :: rest => sleeps rest
  end.

(** An operation that returns from every world (from every world with the
    package-level mutex free, when [free] is set), adds events to the log
    and nothing else, and starts at least [lo] and at most [hi]
    processes. *)
Definition Runs {A : Type} (free : bool) (lo hi : nat) (op : M A) : Prop :=
  forall w, (free = true -> mutex w = false) ->
  exists a evs,
    op w = Some (a, emit evs w) /\ lo <= length (started evs) <= hi.



Definition takes_lock (c : LockArg.call) : bool :=
  match c with
  | LockArg.FormatVolume _ _ _ => false
  | _ => true
  end.

(** The events of a goroutine that makes the calls one after the other,
    each with the system that answers its commands. *)
Definition GlobalMutex_program (TrimSpace : string -> string)
    (calls : list (System * GlobalMutex.call)) : list event :=
  flat_map (fun sc =>
              events_of (GlobalMutex.perform TrimSpace (fst sc) (snd sc)))
    calls.

(** Every goroutine has done all its events. *)
Definition completed (m : machine) : bool :=
  forallb (fun g => match todo g with [] => true | _ :: _ => false end)
    (goroutines m).

(** The events that the goroutines still have to do. *)
Definition remaining (m : machine) : nat :=
  list_sum (map (fun g => length (todo g)) (goroutines m)).

(** What an operation returns is read from the last process it started:
    [r] comes after the events [evs], added to the log [h], when the output
    of [r] is the trimmed output of that process and the error of [r] is nil
    exactly when the process ended without error. *)
Definition from_last_process (TrimSpace : string -> string) (sys : System)
    (h : list event) (evs : list event) (r : Output) : Prop :=
  exists pre c post,
    evs = pre ++ EvStart c :: post
    /\ started post = []
    /\ output_bytes r = TrimSpace (output_bytes (sys (h ++ pre) c))
    /\ (output_err r = None <-> output_err (sys (h ++ pre) c) = None).

(** An operation whose result always comes from the last process it
    started. *)
Definition Reports (free : bool) (TrimSpace : string -> string)
    (sys : System) (op : M Output) : Prop :=
  forall w, (free = true -> mutex w = false) ->
  exists r evs,
    op w = Some (r, emit evs w)
    /\ from_last_process TrimSpace sys (log w) evs r.

(** An operation that follows a process with answer [a]: it starts nothing
    and passes the output and the success of [a] on, or its result comes
    from the last process that it starts itself. *)
Definition Follows (free : bool) (TrimSpace : string -> string)
    (sys : System) (a : Output) (op : M Output) : Prop :=
  forall w, (free = true -> mutex w = false) ->
  exists r evs,
    op w = Some (r, emit evs w)
    /\ ((started evs = []
         /\ output_bytes r = output_bytes a
         /\ (output_err r = None <-> output_err a = None))
        \/ from_last_process TrimSpace sys (log w) evs r).

(** An operation that returns from every world (with the mutex free, when
    [free] is set) and whose first event is the start of a process. *)
Definition Starts {A : Type} (free : bool) (op : M A) : Prop :=
  forall w, (free = true -> mutex w = false) ->
  exists a cmd rest, op w = Some (a, emit (EvStart cmd :: rest) w).

(** A goroutine that reaches the start of a process without waiting for
    anybody: it starts the process at once, or after it locked its own copy
    of the lock argument. *)
Definition launchable (g : goroutine) : Prop :=
  copy_locked g = false
  /\ exists cmd rest,
       todo g = EvStart cmd :: rest
       \/ todo g = EvLock lock_argument :: EvStart cmd :: rest.

(** The events of the callers of the revision with the lock argument, who
    all pass an unlocked mutex. *)
Definition LockArg_programs (TrimSpace : string -> string)
    (callers : list (System * LockArg.call)) : list (list event) :=
  map (fun sc =>
         events_of (LockArg.perform TrimSpace (fst sc) false (snd sc)))
    callers.

(** An operation that returns from [w] and has started one command only,
    at least once and at most ten times. *)
Definition only_runs (op : M Output) (w : World) (cmd : Cmd) : Prop :=
  exists r evs k,
    op w = Some (r, emit evs w)
    /\ 0 < k <= 10
    /\ started evs = repeat cmd k.

(** The calls whose error is that of their last process, wrapped or not:
    all but the creation of the pool, which drops the error of an existing
    pool. *)
Definition GlobalMutex_reports (c : GlobalMutex.call) : bool :=
  match c with
  | GlobalMutex.CreateLogicalThinPool _ _ => false
  | _ => true
  end.

(** In the revision with the lock argument [formatVolume] is left out as
    well, since it returns no output. *)
Definition LockArg_reports (c : LockArg.call) : bool :=
  match c with
  | LockArg.CreateLogicalThinPool _ _ => false
  | LockArg.FormatVolume _ _ _ => false
  | _ => true
  end.

(** A system in which the first nine processes end with exit status 1 and
    the later ones with exit status 5. *)
Definition exists_on_tenth : System :=
  fun h _ =>
    if (length (started h) <? 9)%nat
    then mkOutput "locked" (Some (ExecError "exit status 1"))
    else mkOutput "pool0 already exists" (Some (ExecError "exit status 5")).

(** ** Facts about paths *)

Section Paths.

Local Open Scope string_scope.

Import filepath.

Lemma elements_not_nil (s : string) : elements s <> [].
Proof.
  destruct s as [|c s]; simpl; [discriminate|].
  destruct (Ascii.eqb c Separator); [discriminate|].
  destruct (elements s); discriminate.
Qed.

Lemma elements_app_separator (a b : string) :
  elements (a ++ String Separator b) = (elements a ++ elements b)%list.
Proof.
  induction a as [|c a IH]; simpl.
  - reflexivity.
  - rewrite IH. destruct (Ascii.eqb c Separator); [reflexivity|].
    pose proof (elements_not_nil a) as Hne.
    destruct (elements a); [congruence|reflexivity].
Qed.

Lemma elements_no_separator (s : string) :
  no_separator s = true -> elements s = [s].
Proof.
  induction s as [|c s IH]; simpl; [reflexivity|].
  intros H. apply andb_prop in H as [Hc Hs].
  apply negb_true_iff in Hc. rewrite Hc, (IH Hs). reflexivity.
Qed.

Lemma clean_element_plain (rooted : bool) (out : list string) (e : string) :
  plain_name e = true -> clean_element rooted out e = e :: out.
Proof.
  unfold plain_name, clean_element. intros H.
  repeat (apply andb_prop in H as [H ?]).
  repeat match goal with
         | Hn : negb _ = true |- _ => apply negb_true_iff in Hn; rewrite Hn
         end.
  reflexivity.
Qed.

Lemma plain_name_no_separator (s : string) :
  plain_name s = true -> no_separator s = true.
Proof.
  unfold plain_name. intros H. apply andb_prop in H as [_ H]. exact H.
Qed.

(** The device of a volume: for plain names [filepath.Join] puts the
    elements under [/dev], whether [/dev] is written with a trailing
    separator or not. *)
Lemma Join_dev (vgname lvname : string) :
  plain_name vgname = true -> plain_name lvname = true ->
  Join ["/dev"; vgname; lvname] = "/dev/" ++ vgname ++ "/" ++ lvname.
Proof.
  intros Hvg Hlv.
  assert (He : elements ("dev/" ++ vgname ++ "/" ++ lvname)
               = ["dev"; vgname; lvname]).
  { change ("dev/" ++ vgname ++ "/" ++ lvname)
      with ("dev" ++ String Separator (vgname ++ String Separator lvname)).
    rewrite !elements_app_separator.
    rewrite (elements_no_separator _ (plain_name_no_separator _ Hvg)).
    rewrite (elements_no_separator _ (plain_name_no_separator _ Hlv)).
    reflexivity. }
  cbn [Join String.eqb Ascii.eqb Bool.eqb strings.Join String.concat].
  change ("/dev" ++ "/" ++ vgname ++ "/" ++ lvname)
    with (String Separator ("dev/" ++ vgname ++ "/" ++ lvname)).
  unfold Clean. cbn [elements]. rewrite Ascii.eqb_refl. rewrite He.
  cbn [fold_left]. 
  change (clean_element true [] "") with (@nil string).
  change (clean_element true [] "dev") with ["dev"].
  rewrite (clean_element_plain _ _ _ Hvg), (clean_element_plain _ _ _ Hlv).
  reflexivity.
Qed.


End Paths.

(** ** Facts about the executor *)

Section ExecutorFacts.

Variable sys : System.

Lemma emit_emit (a b : list event) (w : World) :
  emit b (emit a w) = emit (a ++ b) w.
Proof. unfold emit; simpl. now rewrite app_assoc. Qed.

Lemma emit_nil (w : World) : emit [] w = w.
Proof. destruct w; unfold emit; simpl. now rewrite app_nil_r. Qed.

Lemma failed_attempts_shift (h : list event) (c : Cmd) (i : nat) :
  (h ++ failed_attempts c 1) ++ failed_attempts c i
  = h ++ failed_attempts c (S i).
Proof. now rewrite <- app_assoc. Qed.

Lemma run_outcome_later (m : nat) (h : list event) (c : Cmd)
    (evs : list event) (r : Output) :
  attempt_fails sys h c 0 ->
  run_outcome sys m (h ++ failed_attempts c 1) c evs r ->
  run_outcome sys (S m) h c (failed_attempts c 1 ++ evs) r.
Proof.
  intros H0 Hrun.
  assert (Hfails : forall k, (forall i, i < k ->
            attempt_fails sys (h ++ failed_attempts c 1) c i) ->
            forall i, i < S k -> attempt_fails sys h c i).
  { intros k Hk [|i] Hi; [exact H0|].
    unfold attempt_fails in *. rewrite <- failed_attempts_shift.
    apply Hk. lia. }
  destruct Hrun as [j Hj Hbefore Hok | j Hm Hall].
  - rewrite failed_attempts_shift in *.
    change (failed_attempts c 1
            ++ failed_attempts c j ++ [EvStart c; EvExit c true])
      with (failed_attempts c (S j) ++ [EvStart c; EvExit c true]).
    apply run_success; [lia | now apply Hfails | exact Hok].
  - rewrite failed_attempts_shift.
    change (failed_attempts c 1 ++ failed_attempts c m)
      with (failed_attempts c (S m)).
    apply run_exhausted; [lia | now apply Hfails].
Qed.

(** The loop returns, and its run is one of the two outcomes. *)
Lemma runCommand_loop_outcome (cmd : string) (args : list string) :
  forall (m n ret : nat) (output : string) (err : option error) (w : World),
  ret + m = retries -> m <= n -> 0 < m ->
  exists evs r,
    runCommand_loop sys n cmd args ret output err w = Some (r, emit evs w)
    /\ run_outcome sys m (log w) (Command cmd args) evs r.
Proof.
  set (c := Command cmd args).
  induction m as [|m IH]; intros n ret output err w Hret Hn Hm; [lia|].
  destruct n as [|n]; [lia|].
  assert (Hlt : (ret <? retries)%nat = true) by (apply Nat.ltb_lt; lia).
  cbn [runCommand_loop]. rewrite Hlt.
  unfold bind at 1. unfold CombinedOutput at 1. fold c.
  unfold succeeded.
  destruct (output_err (sys (log w) c)) as [e|] eqn:He.
  - assert (H0 : attempt_fails sys (log w) c 0).
    { unfold attempt_fails. cbn [failed_attempts]. rewrite app_nil_r.
      congruence. }
    unfold bind at 1, Sleep at 1. rewrite emit_emit.
    change ([EvStart c; EvExit c false] ++ [EvSleep (100000 * Nanosecond)])
      with (failed_attempts c 1).
    destruct m as [|m].
    + assert (Hge : (S ret <? retries)%nat = false)
        by (apply Nat.ltb_ge; lia).
      destruct n; cbn [runCommand_loop]; rewrite Hge; unfold Return.
      all: exists (failed_attempts c 1), (sys (log w) c); split.
      all: try (destruct (sys (log w) c) as [o e']; simpl in He; subst e';
                reflexivity).
      all: replace (sys (log w) c)
             with (sys (log w ++ failed_attempts c 0) c)
             by (cbn [failed_attempts]; now rewrite app_nil_r).
      all: apply run_exhausted; [reflexivity|].
      all: intros i Hi; replace i with 0 by lia; exact H0.
    + destruct (IH n (S ret) (output_bytes (sys (log w) c)) (Some e)
                  (emit (failed_attempts c 1) w))
        as (evs & r & Hrun & Hout); [lia | lia | lia |].
      exists (failed_attempts c 1 ++ evs), r. split.
      * fold c in Hrun. rewrite Hrun, emit_emit. reflexivity.
      * apply run_outcome_later; assumption.
  - unfold Return. exists [EvStart c; EvExit c true], (sys (log w) c). split.
    + reflexivity.
    + replace (sys (log w) c)
        with (sys (log w ++ failed_attempts c 0) c)
        by (cbn [failed_attempts]; now rewrite app_nil_r).
      change [EvStart c; EvExit c true]
        with (failed_attempts c 0 ++ [EvStart c; EvExit c true]).
      apply run_success; [lia | intros i Hi; lia |].
      cbn [failed_attempts]. now rewrite app_nil_r.
Qed.

End ExecutorFacts.

Section RunOutcome.

Variable sys : System.

Lemma started_app (a b : list event) :
  started (a ++ b) = started a ++ started b.
Proof.
  induction a as [|e a IH]; simpl; [reflexivity|].
  destruct e; simpl; now rewrite IH.
Qed.

Lemma started_failed_attempts (c : Cmd) (k : nat) :
  started (failed_attempts c k) = repeat c k.
Proof. induction k as [|k IH]; simpl; [reflexivity | now rewrite IH]. Qed.

(** When every attempt fails the run is the exhausted one. *)
Lemma run_outcome_all_fail (m : nat) (h : list event) (c : Cmd)
    (evs : list event) (r : Output) :
  (forall i, i < m -> attempt_fails sys h c i) ->
  run_outcome sys m h c evs r ->
  evs = failed_attempts c m
  /\ r = sys (h ++ failed_attempts c (pred m)) c
  /\ output_err r <> None.
Proof.
  intros Hall [j Hj _ Hok | j Hm _].
  - exfalso. exact (Hall j Hj Hok).
  - subst m. repeat split. apply (Hall j). lia.
Qed.

(** When attempt [k] is the first to succeed the run stops there. *)
Lemma run_outcome_first_success (m k : nat) (h : list event) (c : Cmd)
    (evs : list event) (r : Output) :
  k < m ->
  (forall i, i < k -> attempt_fails sys h c i) ->
  output_err (sys (h ++ failed_attempts c k) c) = None ->
  run_outcome sys m h c evs r ->
  evs = failed_attempts c k ++ [EvStart c; EvExit c true]
  /\ r = sys (h ++ failed_attempts c k) c.
Proof.
  intros Hk Hbefore Hok [j Hj Hfail Hokj | j Hm Hall].
  - destruct (Nat.lt_trichotomy j k) as [Hlt | [Heq | Hgt]].
    + exfalso. exact (Hbefore j Hlt Hokj).
    + subst j. split; reflexivity.
    + exfalso. exact (Hfail k Hgt Hok).
  - exfalso. exact (Hall k Hk Hok).
Qed.

(** A run starts its command at least once and at most [m] times, and
    nothing else. *)
Lemma run_outcome_started (m : nat) (h : list event) (c : Cmd)
    (evs : list event) (r : Output) :
  run_outcome sys m h c evs r ->
  exists k, 0 < k <= m /\ started evs = repeat c k.
Proof.
  intros [j Hj _ _ | j Hm _].
  - exists (S j). split; [lia|].
    rewrite started_app, started_failed_attempts. simpl.
    change (c :: repeat c j) with (repeat c (S j)).
    now rewrite <- repeat_cons.
  - exists m. split; [lia|]. apply started_failed_attempts.
Qed.

End RunOutcome.

Section RunCommandFacts.

Variable TrimSpace : string -> string.
Variable sys : System.

Lemma LockArg_runCommand_outcome (cmd : string) (args : list string)
    (w : World) :
  exists evs r,
    LockArg.runCommand TrimSpace sys cmd args w
    = Some (trimmed TrimSpace r, emit evs w)
    /\ run_outcome sys retries (log w) (Command cmd args) evs r.
Proof.
  destruct (runCommand_loop_outcome sys cmd args retries retries 0
              EmptyString None w) as (evs & r & Hrun & Hout);
    [reflexivity | lia | unfold retries; lia |].
  exists evs, r. split; [|exact Hout].
  unfold LockArg.runCommand, bind. now rewrite Hrun.
Qed.

Lemma GlobalMutex_runCommand_outcome (cmd : string) (args : list string)
    (w : World) :
  mutex w = false ->
  exists evs r,
    GlobalMutex.runCommand TrimSpace sys cmd args w
    = Some (trimmed TrimSpace r, emit (locked evs) w)
    /\ run_outcome sys retries (log w ++ [EvLock package_mutex])
         (Command cmd args) evs r.
Proof.
  intros Hfree.
  destruct (runCommand_loop_outcome sys cmd args retries retries 0
              EmptyString None
              (mkWorld true (log w ++ [EvLock package_mutex])))
    as (evs & r & Hrun & Hout);
    [reflexivity | lia | unfold retries; lia |].
  exists evs, r. split; [|exact Hout].
  unfold GlobalMutex.runCommand, bind, GlobalMutex.Lock.
  rewrite Hfree, Hrun. unfold GlobalMutex.Unlock, emit, Return; simpl.
  unfold trimmed. rewrite Hfree.
  replace (((log w ++ [EvLock package_mutex]) ++ evs)
           ++ [EvUnlock package_mutex])
    with (log w ++ EvLock package_mutex :: evs ++ [EvUnlock package_mutex])
    by (now rewrite <- !app_assoc).
  reflexivity.
Qed.

End RunCommandFacts.

(** ** The retry policy *)

Section RetryPolicy.

Variable TrimSpace : string -> string.
Variable sys : System.

Lemma LockArg_runCommand_exhausted (cmd : string) (args : list string)
    (w : World) :
  let c := Command cmd args in
  (forall i, i < retries -> attempt_fails sys (log w) c i) ->
  let last := sys (log w ++ failed_attempts c 9) c in
  LockArg.runCommand TrimSpace sys cmd args w
  = Some (trimmed TrimSpace last, emit (failed_attempts c 10) w)
  /\ output_err last <> None.
Proof.
  intros c Hall last.
  destruct (LockArg_runCommand_outcome TrimSpace sys cmd args w)
    as (evs & r & Hrun & Hout).
  destruct (run_outcome_all_fail sys _ _ _ _ _ Hall Hout)
    as (Hevs & Hr & Herr).
  subst evs r. split; [exact Hrun | exact Herr].
Qed.

Lemma GlobalMutex_runCommand_exhausted (cmd : string) (args : list string)
    (w : World) :
  let c := Command cmd args in
  mutex w = false ->
  (forall i, i < retries ->
     attempt_fails sys (log w ++ [EvLock package_mutex]) c i) ->
  let last :=
    sys ((log w ++ [EvLock package_mutex]) ++ failed_attempts c 9) c in
  GlobalMutex.runCommand TrimSpace sys cmd args w
  = Some (trimmed TrimSpace last,
          emit (EvLock package_mutex
                :: failed_attempts c 10 ++ [EvUnlock package_mutex]) w)
  /\ output_err last <> None.
Proof.
  intros c Hfree Hall last.
  destruct (GlobalMutex_runCommand_outcome TrimSpace sys cmd args w Hfree)
    as (evs & r & Hrun & Hout).
  destruct (run_outcome_all_fail sys _ _ _ _ _ Hall Hout)
    as (Hevs & Hr & Herr).
  subst evs r. split; [exact Hrun | exact Herr].
Qed.

Lemma LockArg_runCommand_succeeds (cmd : string) (args : list string)
    (w : World) (k : nat) :
  let c := Command cmd args in
  k < retries ->
  (forall i, i < k -> attempt_fails sys (log w) c i) ->
  output_err (sys (log w ++ failed_attempts c k) c) = None ->
  LockArg.runCommand TrimSpace sys cmd args w
  = Some (mkOutput
            (TrimSpace (output_bytes (sys (log w ++ failed_attempts c k) c)))
            None,
          emit (failed_attempts c k ++ [EvStart c; EvExit c true]) w).
Proof.
  intros c Hk Hbefore Hok.
  destruct (LockArg_runCommand_outcome TrimSpace sys cmd args w)
    as (evs & r & Hrun & Hout).
  destruct (run_outcome_first_success sys _ _ _ _ _ _ Hk Hbefore Hok Hout)
    as (Hevs & Hr).
  subst evs r. rewrite Hrun. unfold trimmed. fold c. now rewrite Hok.
Qed.

Lemma GlobalMutex_runCommand_succeeds (cmd : string) (args : list string)
    (w : World) (k : nat) :
  let c := Command cmd args in
  let h := log w ++ [EvLock package_mutex] in
  mutex w = false ->
  k < retries ->
  (forall i, i < k -> attempt_fails sys h c i) ->
  output_err (sys (h ++ failed_attempts c k) c) = None ->
  GlobalMutex.runCommand TrimSpace sys cmd args w
  = Some (mkOutput
            (TrimSpace (output_bytes (sys (h ++ failed_attempts c k) c)))
            None,
          emit (EvLock package_mutex
                :: (failed_attempts c k ++ [EvStart c; EvExit c true])
                   ++ [EvUnlock package_mutex]) w).
Proof.
  intros c h Hfree Hk Hbefore Hok.
  destruct (GlobalMutex_runCommand_outcome TrimSpace sys cmd args w Hfree)
    as (evs & r & Hrun & Hout).
  destruct (run_outcome_first_success sys _ _ _ _ _ _ Hk Hbefore Hok Hout)
    as (Hevs & Hr).
  subst evs r. rewrite Hrun. unfold trimmed. fold c h. now rewrite Hok.
Qed.

End RetryPolicy.

(** C2. A command whose every attempt fails is attempted exactly 10 times:
    in either revision [runCommand] returns after the events of 10 failed
    attempts, with the trimmed combined output and the error of the tenth
    attempt. *)
Theorem runCommand_retry_ceiling (TrimSpace : string -> string)
    (sys : System) (cmd : string) (args : list string) (w : World) :
  let c := Command cmd args in
  ((forall i, i < 10 -> attempt_fails sys (log w) c i) ->
   let last := sys (log w ++ failed_attempts c 9) c in
   LockArg.runCommand TrimSpace sys cmd args w
   = Some (mkOutput (TrimSpace (output_bytes last)) (output_err last),
           emit (failed_attempts c 10) w)
   /\ output_err last <> None)
  /\ (mutex w = false ->
      (forall i, i < 10 ->
         attempt_fails sys (log w ++ [EvLock package_mutex]) c i) ->
      let last :=
        sys ((log w ++ [EvLock package_mutex]) ++ failed_attempts c 9) c in
      GlobalMutex.runCommand TrimSpace sys cmd args w
      = Some (mkOutput (TrimSpace (output_bytes last)) (output_err last),
              emit (EvLock package_mutex
                    :: failed_attempts c 10 ++ [EvUnlock package_mutex]) w)
      /\ output_err last <> None)
  /\ started (failed_attempts c 10) = repeat c 10.
Proof.
  intros c. split; [|split].
  - apply LockArg_runCommand_exhausted.
  - apply GlobalMutex_runCommand_exhausted.
  - apply started_failed_attempts.
Qed.

Lemma runCommand_retry_ceiling_witness :
  let c := Command "lvremove" ["-y"; "vg0/lv1"] in
  LockArg.runCommand TrimSpace_ascii always_fails "lvremove" ["-y"; "vg0/lv1"]
    idle
  = Some (mkOutput "device is busy" (Some (ExecError "exit status 1")),
          emit (failed_attempts c 10) idle)
  /\ GlobalMutex.runCommand TrimSpace_ascii always_fails "lvremove"
       ["-y"; "vg0/lv1"] idle
     = Some (mkOutput "device is busy" (Some (ExecError "exit status 1")),
             emit (EvLock package_mutex
                   :: failed_attempts c 10 ++ [EvUnlock package_mutex]) idle).
Proof.
  intros c.
  destruct (runCommand_retry_ceiling TrimSpace_ascii always_fails
              "lvremove" ["-y"; "vg0/lv1"] idle) as (H1 & H2 & _).
  split.
  - refine (proj1 (H1 _)). intros i _. discriminate.
  - refine (proj1 (H2 eq_refl _)). intros i _. discriminate.
Defined.

(** C6. A command that fails on its first [k] attempts, [k < 10], and
    succeeds on the next one is started [k + 1] times and no more: in either
    revision [runCommand] returns a nil error with the combined output of
    the successful attempt, trimmed of surrounding white space. *)
Theorem runCommand_stops_at_first_success (TrimSpace : string -> string)
    (sys : System) (cmd : string) (args : list string) (w : World)
    (k : nat) :
  let c := Command cmd args in
  k < 10 ->
  ((forall i, i < k -> attempt_fails sys (log w) c i) ->
   output_err (sys (log w ++ failed_attempts c k) c) = None ->
   LockArg.runCommand TrimSpace sys cmd args w
   = Some (mkOutput
             (TrimSpace (output_bytes (sys (log w ++ failed_attempts c k) c)))
             None,
           emit (failed_attempts c k ++ [EvStart c; EvExit c true]) w))
  /\ (let h := log w ++ [EvLock package_mutex] in
      mutex w = false ->
      (forall i, i < k -> attempt_fails sys h c i) ->
      output_err (sys (h ++ failed_attempts c k) c) = None ->
      GlobalMutex.runCommand TrimSpace sys cmd args w
      = Some (mkOutput
                (TrimSpace (output_bytes (sys (h ++ failed_attempts c k) c)))
                None,
              emit (EvLock package_mutex
                    :: (failed_attempts c k ++ [EvStart c; EvExit c true])
                       ++ [EvUnlock package_mutex]) w))
  /\ started (failed_attempts c k ++ [EvStart c; EvExit c true])
     = repeat c (k + 1).
Proof.
  intros c Hk. split; [|split].
  - now apply LockArg_runCommand_succeeds.
  - intros h Hfree. now apply GlobalMutex_runCommand_succeeds.
  - rewrite started_app, started_failed_attempts. simpl.
    now rewrite repeat_app.
Qed.

Lemma runCommand_stops_at_first_success_witness :
  let c := Command "vgs" ["vg0"] in
  LockArg.runCommand TrimSpace_ascii (fails_first 3) "vgs" ["vg0"] idle
  = Some (mkOutput "done" None,
          emit (failed_attempts c 3 ++ [EvStart c; EvExit c true]) idle)
  /\ GlobalMutex.runCommand TrimSpace_ascii (fails_first 3) "vgs" ["vg0"] idle
     = Some (mkOutput "done" None,
             emit (EvLock package_mutex
                   :: (failed_attempts c 3 ++ [EvStart c; EvExit c true])
                      ++ [EvUnlock package_mutex]) idle).
Proof.
  intros c.
  destruct (runCommand_stops_at_first_success TrimSpace_ascii (fails_first 3)
              "vgs" ["vg0"] idle 3) as (H1 & H2 & _); [lia|].
  split.
  - refine (H1 _ eq_refl).
    intros [|[|[|i]]] Hi; try lia; discriminate.
  - refine (H2 eq_refl _ eq_refl).
    intros [|[|[|i]]] Hi; try lia; discriminate.
Defined.

(** ** Volume creation with the package-level mutex *)

Section Creation.

Variable TrimSpace : string -> string.
Variable sys : System.

Lemma GlobalMutex_createLVMVolume_creation
    (lvname vgname lvpoolname size fstype parent : string) (kind : Kind)
    (w : World) :
  mutex w = false ->
  exists evs r,
    GlobalMutex.createLVMVolume TrimSpace sys
      lvname vgname lvpoolname size fstype parent kind w
    = Some (r, emit evs w)
    /\ creation TrimSpace sys (log w)
         lvname vgname lvpoolname size fstype parent evs r.
Proof.
  intros Hfree. unfold GlobalMutex.createLVMVolume.
  destruct (GlobalMutex_runCommand_outcome TrimSpace sys "lvcreate"
              (if negb (parent =? "")%string then
                 append [] ["--name"; lvname; "--snapshot";
                            (vgname ++ "/" ++ parent)%string]
               else
                 append [] ["--virtualsize"; size; "--name"; lvname; "--thin";
                            (vgname ++ "/" ++ lvpoolname)%string])
              w Hfree) as (ev1 & r1 & H1 & O1).
  unfold bind at 1. rewrite H1. cbn [trimmed output_err output_bytes].
  destruct (output_err r1) as [e1|] eqn:E1.
  { exists (locked ev1), (mkOutput (TrimSpace (output_bytes r1))
                           (Some (withMessage e1 "Unable to create volume"))).
    split; [reflexivity|].
    apply creation_create_failed; [|exact E1].
    unfold lvcreate_command. destruct (negb (parent =? "")%string); exact O1. }
  assert (O1' : run_outcome sys retries (log w ++ [EvLock package_mutex])
                  (lvcreate_command lvname vgname lvpoolname size parent)
                  ev1 r1).
  { unfold lvcreate_command. destruct (negb (parent =? "")%string); exact O1. }
  clear O1 H1.
  unfold GlobalMutex.toggleactivateLV.
  destruct (GlobalMutex_runCommand_outcome TrimSpace sys "lvchange"
              (append ["-K"; (vgname ++ "/" ++ lvname)%string; "-a"] ["y"])
              (emit (locked ev1) w) Hfree) as (ev2 & r2 & H2 & O2).
  unfold bind at 1. rewrite H2. cbn [trimmed output_err output_bytes].
  rewrite emit_emit.
  change (log (emit (locked ev1) w)) with (log w ++ locked ev1) in O2.
  destruct (output_err r2) as [e2|] eqn:E2.
  { exists (locked ev1 ++ locked ev2),
      (mkOutput (TrimSpace (output_bytes r2))
         (Some (withMessage e2 "Unable to activate thin volume"))).
    split; [reflexivity|].
    eapply creation_activation_failed; eassumption. }
  destruct (parent =? "")%string eqn:Ep.
  - apply String.eqb_eq in Ep.
    destruct (GlobalMutex_runCommand_outcome TrimSpace sys
                ("mkfs." ++ fstype)%string
                (append
                   (if (fstype =? "ext4")%string then
                      append []
                        ["-E";
                         "nodiscard,lazy_itable_init=0,lazy_journal_init=0"]
                    else if (fstype =? "xfs")%string then append [] ["-K"]
                    else [])
                   [filepath.Join ["/dev/"; vgname; lvname]])
                (emit (locked ev1 ++ locked ev2) w) Hfree)
      as (ev3 & r3 & H3 & O3).
    rewrite H3, emit_emit.
    exists ((locked ev1 ++ locked ev2) ++ locked ev3), (trimmed TrimSpace r3).
    split; [reflexivity|]. rewrite <- app_assoc.
    eapply creation_formatted; try eassumption.
    change (log (emit (locked ev1 ++ locked ev2) w))
      with (log w ++ locked ev1 ++ locked ev2) in O3.
    rewrite app_assoc in O3.
    unfold mkfs_command.
    destruct (fstype =? "ext4")%string; [exact O3|].
    destruct (fstype =? "xfs")%string; exact O3.
  - apply String.eqb_neq in Ep.
    exists (locked ev1 ++ locked ev2), (trimmed TrimSpace r2).
    split.
    + unfold Return, trimmed. now rewrite E2.
    + eapply creation_snapshot; eassumption.
Qed.

End Creation.

(** ** Reading the events of a run *)

Section Traces.

Variable sys : System.

Lemma finished_app (a b : list event) :
  finished (a ++ b) = finished a ++ finished b.
Proof.
  induction a as [|e a IH]; simpl; [reflexivity|].
  destruct e as [| | |c [|]|]; simpl; now rewrite IH.
Qed.

Lemma finished_failed_attempts (c : Cmd) (k : nat) :
  finished (failed_attempts c k) = [].
Proof. induction k as [|k IH]; simpl; [reflexivity | exact IH]. Qed.

Lemma started_locked (evs : list event) :
  started (locked evs) = started evs.
Proof.
  unfold locked. simpl. rewrite started_app. simpl. apply app_nil_r.
Qed.

Lemma finished_locked (evs : list event) :
  finished (locked evs) = finished evs.
Proof.
  unfold locked. simpl. rewrite finished_app. simpl. apply app_nil_r.
Qed.

(** A run that ends without error ends with the successful attempt; a run
    that ends with an error used up all its attempts. *)
Lemma run_outcome_cases (m : nat) (h : list event) (c : Cmd)
    (evs : list event) (r : Output) :
  run_outcome sys m h c evs r ->
  (output_err r = None
   /\ exists j, j < m
        /\ evs = failed_attempts c j ++ [EvStart c; EvExit c true])
  \/ (output_err r <> None /\ evs = failed_attempts c m).
Proof.
  intros [j Hj _ Hok | j Hm Hall].
  - left. split; [exact Hok|]. exists j. split; [exact Hj | reflexivity].
  - right. split; [|reflexivity]. subst m. apply (Hall j). lia.
Qed.

Lemma run_outcome_finished (m : nat) (h : list event) (c : Cmd)
    (evs : list event) (r : Output) :
  run_outcome sys m h c evs r ->
  finished evs = if succeeded r then [c] else [].
Proof.
  intros Hrun. unfold succeeded.
  destruct (run_outcome_cases _ _ _ _ _ Hrun)
    as [[Hok (j & _ & ->)] | [Herr ->]].
  - rewrite Hok, finished_app, finished_failed_attempts. reflexivity.
  - rewrite finished_failed_attempts.
    destruct (output_err r); [reflexivity | congruence].
Qed.



Lemma run_outcome_deterministic (m : nat) (h : list event) (c : Cmd)
    (evs evs' : list event) (r r' : Output) :
  run_outcome sys m h c evs r ->
  run_outcome sys m h c evs' r' ->
  evs = evs' /\ r = r'.
Proof.
  intros [j Hj Hfail Hok | j Hm Hall] Hrun'.
  - destruct (run_outcome_first_success sys _ _ _ _ _ _ Hj Hfail Hok Hrun')
      as [-> ->]. split; reflexivity.
  - destruct (run_outcome_all_fail sys _ _ _ _ _ Hall Hrun')
      as (-> & -> & _). subst m. split; reflexivity.
Qed.

End Traces.

(** ** Volume creation with the lock argument *)

Section LockArgCreation.

Variable TrimSpace : string -> string.
Variable sys : System.

Lemma with_lock_unlocked {A : Type} (body : M A) (w : World) (a : A)
    (evs : list event) :
  body (emit [EvLock lock_argument] w)
  = Some (a, emit evs (emit [EvLock lock_argument] w)) ->
  LockArg.with_lock false body w = Some (a, emit (locked_copy evs) w).
Proof.
  intros Hbody. unfold LockArg.with_lock, bind, LockArg.Lock.
  rewrite Hbody. unfold LockArg.Unlock, Return.
  now rewrite !emit_emit.
Qed.

Lemma with_lock_locked {A : Type} (body : M A) (w : World) :
  LockArg.with_lock true body w = None.
Proof. reflexivity. Qed.

Lemma LockArg_createLVMVolume_run
    (lvname vgname lvpoolname size parent : string) (kind : Kind)
    (w : World) :
  exists evs r,
    run_outcome sys retries (log w ++ [EvLock lock_argument])
      (lvcreate_command lvname vgname lvpoolname size parent) evs r
    /\ LockArg.createLVMVolume TrimSpace sys false
         lvname vgname lvpoolname size parent kind w
       = Some (mkOutput (TrimSpace (output_bytes r))
                 (Wrap (output_err r) "Unable to create volume"),
               emit (locked_copy evs) w).
Proof.
  unfold LockArg.createLVMVolume.
  destruct (LockArg_runCommand_outcome TrimSpace sys "lvcreate"
              (if negb (parent =? "")%string then
                 append [] ["--name"; lvname; "--snapshot";
                            (vgname ++ "/" ++ parent)%string]
               else
                 append [] ["--virtualsize"; size; "--name"; lvname; "--thin";
                            (vgname ++ "/" ++ lvpoolname)%string])
              (emit [EvLock lock_argument] w)) as (evs & r & Hrun & Hout).
  exists evs, r. split.
  - unfold lvcreate_command.
    destruct (negb (parent =? "")%string); exact Hout.
  - apply with_lock_unlocked. unfold bind. rewrite Hrun.
    cbn [trimmed output_err output_bytes]. unfold Return, trimmed.
    destruct (output_err r); reflexivity.
Qed.

End LockArgCreation.

(** ** The format step of volume creation *)




(** ** The create step *)

Section CreateStep.

Variable TrimSpace : string -> string.
Variable sys : System.

Lemma run_outcome_answer (m : nat) (h : list event) (c : Cmd)
    (evs : list event) (r : Output) :
  run_outcome sys m h c evs r ->
  exists j, j < m /\ r = sys (h ++ failed_attempts c j) c.
Proof.
  intros [j Hj _ _ | j Hm _]; exists j; (split; [lia | reflexivity]).
Qed.

Lemma Forall_repeat {A : Type} (P : A -> Prop) (a : A) (k : nat) :
  P a -> Forall P (repeat a k).
Proof.
  intros Ha. apply Forall_forall. intros x Hx.
  now rewrite (repeat_spec _ _ _ Hx).
Qed.

Lemma mkfs_command_not_lvcreate (vgname lvname fstype : string) :
  Path (mkfs_command vgname lvname fstype) <> "lvcreate"%string.
Proof. discriminate. Qed.

End CreateStep.

(** C9. The create command of [createLVMVolume] is [lvcreate], started at
    least once and before any other command.  With a non-empty parent its
    arguments are [--name <lvname> --snapshot <vgname>/<parent>], without
    the size and the pool; with an empty parent they are
    [--virtualsize <size> --name <lvname> --thin <vgname>/<lvpoolname>].
    In the revision with the lock argument nothing else is started. *)
Theorem createLVMVolume_create_arguments (TrimSpace : string -> string)
    (sys : System) (lvname vgname lvpoolname size fstype parent : string)
    (kind : Kind) (w : World) :
  mutex w = false ->
  let create :=
    Command "lvcreate"
      (if (parent =? "")%string then
         ["--virtualsize"; size; "--name"; lvname;
          "--thin"; (vgname ++ "/" ++ lvpoolname)%string]
       else
         ["--name"; lvname; "--snapshot"; (vgname ++ "/" ++ parent)%string])
  in
  (exists r evs k,
     LockArg.createLVMVolume TrimSpace sys false
       lvname vgname lvpoolname size parent kind w
     = Some (r, emit evs w)
     /\ 0 < k <= 10
     /\ started evs = repeat create k)
  /\ (exists r evs k rest,
        GlobalMutex.createLVMVolume TrimSpace sys
          lvname vgname lvpoolname size fstype parent kind w
        = Some (r, emit evs w)
        /\ 0 < k <= 10
        /\ started evs = repeat create k ++ rest
        /\ Forall (fun c => Path c <> "lvcreate"%string) rest).
Proof.
  intros Hfree create.
  assert (Hcreate : lvcreate_command lvname vgname lvpoolname size parent
                    = create).
  { unfold lvcreate_command, create.
    destruct (parent =? "")%string; reflexivity. }
  split.
  - destruct (LockArg_createLVMVolume_run TrimSpace sys
                lvname vgname lvpoolname size parent kind w)
      as (evs & r & Hout & Hrun).
    destruct (run_outcome_started sys _ _ _ _ _ Hout) as (k & Hk & Hst).
    eexists _, (locked_copy evs), k. split; [exact Hrun|].
    split; [exact Hk|].
    unfold locked_copy. cbn [started]. rewrite started_app, Hst, Hcreate.
    simpl. now rewrite app_nil_r.
  - destruct (GlobalMutex_createLVMVolume_creation TrimSpace sys
                lvname vgname lvpoolname size fstype parent kind w Hfree)
      as (evs & r & Hrun & Hc).
    assert (Hact : Path (lvchange_command vgname lvname)
                   <> "lvcreate"%string) by discriminate.
    destruct Hc as [ev1 r1 e O1 E1 | ev1 ev2 r1 r2 e O1 E1 O2 E2
                   | ev1 ev2 r1 r2 O1 E1 O2 E2 Hp
                   | ev1 ev2 ev3 r1 r2 r3 O1 E1 O2 E2 Hp O3].
    all: destruct (run_outcome_started sys _ _ _ _ _ O1) as (k & Hk & Hst).
    all: rewrite Hcreate in Hst.
    + eexists _, (locked ev1), k, []. split; [exact Hrun|].
      split; [exact Hk|]. rewrite started_locked, Hst, app_nil_r.
      split; [reflexivity | constructor].
    + destruct (run_outcome_started sys _ _ _ _ _ O2) as (k2 & _ & Hst2).
      eexists _, (locked ev1 ++ locked ev2), k,
        (repeat (lvchange_command vgname lvname) k2).
      split; [exact Hrun|]. split; [exact Hk|].
      rewrite started_app, !started_locked, Hst, Hst2.
      split; [reflexivity | now apply Forall_repeat].
    + destruct (run_outcome_started sys _ _ _ _ _ O2) as (k2 & _ & Hst2).
      eexists _, (locked ev1 ++ locked ev2), k,
        (repeat (lvchange_command vgname lvname) k2).
      split; [exact Hrun|]. split; [exact Hk|].
      rewrite started_app, !started_locked, Hst, Hst2.
      split; [reflexivity | now apply Forall_repeat].
    + destruct (run_outcome_started sys _ _ _ _ _ O2) as (k2 & _ & Hst2).
      destruct (run_outcome_started sys _ _ _ _ _ O3) as (k3 & _ & Hst3).
      eexists _, (locked ev1 ++ locked ev2 ++ locked ev3), k,
        (repeat (lvchange_command vgname lvname) k2
         ++ repeat (mkfs_command vgname lvname fstype) k3).
      split; [exact Hrun|]. split; [exact Hk|].
      rewrite !started_app, !started_locked, Hst, Hst2, Hst3.
      split; [reflexivity|].
      apply Forall_app. split; apply Forall_repeat;
        [exact Hact | apply mkfs_command_not_lvcreate].
Qed.

Lemma createLVMVolume_create_arguments_witness :
  mutex idle = false
  /\ (exists r evs k,
        LockArg.createLVMVolume TrimSpace_ascii (fails_first 1) false
          "lv2" "vg0" "pool0" "1G" "lv1" KindActive idle
        = Some (r, emit evs idle)
        /\ 0 < k <= 10
        /\ started evs
           = repeat (Command "lvcreate"
                       ["--name"; "lv2"; "--snapshot"; "vg0/lv1"]) k).
Proof.
  split; [reflexivity|].
  exact (proj1 (createLVMVolume_create_arguments TrimSpace_ascii
                  (fails_first 1) "lv2" "vg0" "pool0" "1G" "ext4" "lv1"
                  KindActive idle eq_refl)).
Defined.

(** ** Failures of the steps of volume creation *)

Section StepFailures.

Variable TrimSpace : string -> string.
Variable sys : System.

Lemma run_outcome_failed (m : nat) (h : list event) (c : Cmd)
    (evs : list event) (r : Output) (e : error) :
  run_outcome sys m h c evs r ->
  output_err r = Some e ->
  evs = failed_attempts c m
  /\ finished evs = []
  /\ exists h', output_err (sys h' c) = Some e.
Proof.
  intros Hrun He.
  destruct (run_outcome_cases sys _ _ _ _ _ Hrun) as [[Hok _] | [_ ->]];
    [congruence|].
  split; [reflexivity|]. split; [apply finished_failed_attempts|].
  destruct (run_outcome_answer sys _ _ _ _ _ Hrun) as (j & _ & ->).
  eexists. exact He.
Qed.

Lemma run_outcome_passed (m : nat) (h : list event) (c : Cmd)
    (evs : list event) (r : Output) :
  run_outcome sys m h c evs r ->
  output_err r = None ->
  finished evs = [c].
Proof.
  intros Hrun Hok. rewrite (run_outcome_finished sys _ _ _ _ _ Hrun).
  unfold succeeded. now rewrite Hok.
Qed.

Lemma lvcreate_is_not_lvchange
    (lvname vgname lvpoolname size parent : string) :
  lvcreate_command lvname vgname lvpoolname size parent
  <> lvchange_command vgname lvname.
Proof. discriminate. Qed.

End StepFailures.

(** C8, as amended.  [createLVMVolume] of the revision that creates,
    activates and formats returns at the first step that fails and starts
    nothing after it.  When the create step fails the error is the create
    error wrapped with [Unable to create volume] and only [lvcreate] was
    started; when the activation fails the error is the activation error
    wrapped with [Unable to activate thin volume] and no [mkfs] was
    started; when the format step fails the error of [mkfs] is returned as
    it is, without a message of the step.  In the revision with the lock
    argument [createLVMVolume] is the create step alone, wrapped in the same
    way. *)
Theorem createLVMVolume_step_failures (TrimSpace : string -> string)
    (sys : System) (lvname vgname lvpoolname size fstype parent : string)
    (kind : Kind) (w : World) :
  mutex w = false ->
  let create := lvcreate_command lvname vgname lvpoolname size parent in
  let act := lvchange_command vgname lvname in
  let mkfs := mkfs_command vgname lvname fstype in
  (exists r evs,
    GlobalMutex.createLVMVolume TrimSpace sys
      lvname vgname lvpoolname size fstype parent kind w
    = Some (r, emit evs w)
    /\ (~ In create (finished evs) ->
        exists e h,
          output_err r = Some (withMessage e "Unable to create volume")
          /\ output_err (sys h create) = Some e
          /\ started evs = repeat create 10)
    /\ (In create (finished evs) -> ~ In act (finished evs) ->
        exists e h k,
          output_err r = Some (withMessage e "Unable to activate thin volume")
          /\ output_err (sys h act) = Some e
          /\ started evs = repeat create k ++ repeat act 10)
    /\ (In act (finished evs) -> parent = EmptyString ->
        ~ In mkfs (finished evs) ->
        exists h k1 k2,
          output_err r = output_err (sys h mkfs)
          /\ output_err r <> None
          /\ started evs
             = repeat create k1 ++ repeat act k2 ++ repeat mkfs 10))
  /\ (exists r1 evs k,
        LockArg.createLVMVolume TrimSpace sys false
          lvname vgname lvpoolname size parent kind w
        = Some (mkOutput (TrimSpace (output_bytes r1))
                  (Wrap (output_err r1) "Unable to create volume"),
                emit (locked_copy evs) w)
        /\ started evs = repeat create k).
Proof.
  intros Hfree create act mkfs. split.
  2:{ destruct (LockArg_createLVMVolume_run TrimSpace sys
                  lvname vgname lvpoolname size parent kind w)
        as (evs & r1 & Hout & Hrun).
      destruct (run_outcome_started sys _ _ _ _ _ Hout) as (k & _ & Hst).
      exists r1, evs, k. split; [exact Hrun | exact Hst]. }
  destruct (GlobalMutex_createLVMVolume_creation TrimSpace sys
              lvname vgname lvpoolname size fstype parent kind w Hfree)
    as (evs & r & Hrun & Hc).
  exists r, evs. split; [exact Hrun|]. clear Hrun.
  pose proof (lvcreate_is_not_lvchange lvname vgname lvpoolname size parent)
    as Hca.
  fold create act in Hca.
  destruct Hc as [ev1 r1 e O1 E1 | ev1 ev2 r1 r2 e O1 E1 O2 E2
                 | ev1 ev2 r1 r2 O1 E1 O2 E2 Hp
                 | ev1 ev2 ev3 r1 r2 r3 O1 E1 O2 E2 Hp O3].
  - destruct (run_outcome_failed sys _ _ _ _ _ _ O1 E1) as (-> & Hf & h & Hh).
    rewrite finished_locked, Hf, started_locked, started_failed_attempts.
    cbn [output_err].
    split; [intros _; exists e, h; repeat split; exact Hh|].
    split; [intros [] | intros []].
  - destruct (run_outcome_failed sys _ _ _ _ _ _ O2 E2) as (-> & Hf & h & Hh).
    destruct (run_outcome_started sys _ _ _ _ _ O1) as (k & _ & Hst).
    rewrite finished_app, !finished_locked, Hf.
    rewrite (run_outcome_passed sys _ _ _ _ _ O1 E1).
    rewrite started_app, !started_locked, Hst, started_failed_attempts.
    cbn [output_err app]. fold create act.
    split; [intros Hn; exfalso; apply Hn; left; reflexivity|].
    split.
    + intros _ _. exists e, h, k. repeat split. exact Hh.
    + intros [Heq | []]. contradiction.
  - rewrite finished_app, !finished_locked.
    rewrite (run_outcome_passed sys _ _ _ _ _ O1 E1).
    rewrite (run_outcome_passed sys _ _ _ _ _ O2 E2).
    cbn [app]. fold create act.
    split; [intros Hn; exfalso; apply Hn; left; reflexivity|].
    split.
    + intros _ Hn. exfalso. apply Hn. right. left. reflexivity.
    + intros _ Hp'. contradiction.
  - rewrite !finished_app, !finished_locked.
    rewrite (run_outcome_passed sys _ _ _ _ _ O1 E1).
    rewrite (run_outcome_passed sys _ _ _ _ _ O2 E2).
    cbn [app]. fold create act.
    split; [intros Hn; exfalso; apply Hn; left; reflexivity|].
    split; [intros _ Hn; exfalso; apply Hn; right; left; reflexivity|].
    intros _ _ Hn.
    destruct (output_err r3) as [e3|] eqn:E3.
    + destruct (run_outcome_failed sys _ _ _ _ _ _ O3 E3)
        as (-> & _ & h & Hh).
      destruct (run_outcome_started sys _ _ _ _ _ O1) as (k1 & _ & Hst1).
      destruct (run_outcome_started sys _ _ _ _ _ O2) as (k2 & _ & Hst2).
      exists h, k1, k2. unfold trimmed. cbn [output_err].
      rewrite E3, !started_app, !started_locked, Hst1, Hst2,
        started_failed_attempts.
      fold mkfs in Hh. rewrite Hh.
      repeat split. discriminate.
    + exfalso. apply Hn.
      rewrite (run_outcome_passed sys _ _ _ _ _ O3 E3).
      right. right. left. reflexivity.
Qed.

Lemma createLVMVolume_step_failures_witness :
  let create := lvcreate_command "lv1" "vg0" "pool0" "1G" "" in
  let evs := locked (failed_attempts create 10) in
  mutex idle = false
  /\ GlobalMutex.createLVMVolume TrimSpace_ascii always_fails
       "lv1" "vg0" "pool0" "1G" "ext4" "" KindActive idle
     = Some (mkOutput "device is busy"
               (Some (withMessage (ExecError "exit status 1")
                        "Unable to create volume")),
             emit evs idle)
  /\ ~ In create (finished evs)
  /\ exists e h,
       Some (withMessage (ExecError "exit status 1") "Unable to create volume")
       = Some (withMessage e "Unable to create volume")
       /\ output_err (always_fails h create) = Some e
       /\ started evs = repeat create 10.
Proof.
  intros create evs.
  assert (Hc : GlobalMutex.createLVMVolume TrimSpace_ascii always_fails
                 "lv1" "vg0" "pool0" "1G" "ext4" "" KindActive idle
               = Some (mkOutput "device is busy"
                         (Some (withMessage (ExecError "exit status 1")
                                  "Unable to create volume")),
                       emit evs idle)) by reflexivity.
  split; [reflexivity|]. split; [exact Hc|]. split; [intros H; exact H|].
  destruct (createLVMVolume_step_failures TrimSpace_ascii always_fails
              "lv1" "vg0" "pool0" "1G" "ext4" "" KindActive idle eq_refl)
    as [(r & evs' & Hrun & Hcreate & _) _].
  rewrite Hc in Hrun. injection Hrun as <- <-.
  apply Hcreate. intros H; exact H.
Defined.

(** C8 as stated fails for the format step: its error comes back as the
    executor returned it, not wrapped with a message of the step. *)
Lemma createLVMVolume_format_error_not_wrapped :
  let create := lvcreate_command "lv1" "vg0" "pool0" "1G" "" in
  let act := lvchange_command "vg0" "lv1" in
  let mkfs := mkfs_command "vg0" "lv1" "ext4" in
  GlobalMutex.createLVMVolume TrimSpace_ascii mkfs_fails
    "lv1" "vg0" "pool0" "1G" "ext4" "" KindActive idle
  = Some (mkOutput "mkfs.ext4: Device size reported to be zero"
            (Some (ExecError "exit status 1")),
          emit (locked [EvStart create; EvExit create true]
                ++ locked [EvStart act; EvExit act true]
                ++ locked (failed_attempts mkfs 10)) idle).
Proof. vm_compute. reflexivity. Qed.

(** ** Thin-pool creation *)

Section ThinPool.

Variable TrimSpace : string -> string.
Variable sys : System.

Lemma LockArg_createLogicalThinPool_run (vgname lvpool : string) (w : World)
    (r : Output) (evs : list event) :
  LockArg.runCommand TrimSpace sys "lvcreate"
    ["--thinpool"; lvpool; "--extents"; "90%FREE"; vgname]
    (emit [EvLock lock_argument] w)
  = Some (r, emit evs (emit [EvLock lock_argument] w)) ->
  LockArg.createLogicalThinPool TrimSpace sys false vgname lvpool w
  = Some (match output_err r with
          | Some e =>
              if (Error e =? "exit status 5")%string
              then mkOutput (output_bytes r) None
              else r
          | None => r
          end,
          emit (locked_copy evs) w).
Proof.
  intros Hrun. unfold LockArg.createLogicalThinPool.
  apply with_lock_unlocked. unfold bind. rewrite Hrun.
  destruct (output_err r) as [e|]; [|reflexivity].
  destruct (Error e =? "exit status 5")%string; reflexivity.
Qed.

Lemma GlobalMutex_createLogicalThinPool_run (vgname lvpool : string)
    (w w' : World) (r : Output) :
  GlobalMutex.runCommand TrimSpace sys "lvcreate"
    ["--thinpool"; lvpool; "--extents"; "90%FREE"; vgname] w
  = Some (r, w') ->
  GlobalMutex.createLogicalThinPool TrimSpace sys vgname lvpool w
  = Some (match output_err r with
          | Some e =>
              if (Error e =? "exit status 5")%string
              then mkOutput (output_bytes r) None
              else r
          | None => r
          end, w').
Proof.
  intros Hrun. unfold GlobalMutex.createLogicalThinPool, bind.
  rewrite Hrun.
  destruct (output_err r) as [e|]; [|reflexivity].
  destruct (Error e =? "exit status 5")%string; reflexivity.
Qed.

End ThinPool.

(** C4. When the [lvcreate --thinpool] command of [createLogicalThinPool]
    ends with an error whose text is exactly [exit status 5], the operation
    returns the captured output with a nil error; any other error of the
    command is returned as it is, with the output.  Both revisions. *)
Theorem createLogicalThinPool_already_exists (TrimSpace : string -> string)
    (sys : System) (vgname lvpool : string) (w : World) :
  mutex w = false ->
  let args := ["--thinpool"; lvpool; "--extents"; "90%FREE"; vgname] in
  (exists out err evs,
     LockArg.runCommand TrimSpace sys "lvcreate" args
       (emit [EvLock lock_argument] w)
     = Some (mkOutput out err, emit evs (emit [EvLock lock_argument] w))
     /\ started evs <> []
     /\ forall e, err = Some e ->
          (Error e = "exit status 5"%string ->
           LockArg.createLogicalThinPool TrimSpace sys false vgname lvpool w
           = Some (mkOutput out None, emit (locked_copy evs) w))
          /\ (Error e <> "exit status 5"%string ->
              LockArg.createLogicalThinPool TrimSpace sys false vgname lvpool
                w
              = Some (mkOutput out (Some e), emit (locked_copy evs) w)))
  /\ (exists out err w',
        GlobalMutex.runCommand TrimSpace sys "lvcreate" args w
        = Some (mkOutput out err, w')
        /\ forall e, err = Some e ->
             (Error e = "exit status 5"%string ->
              GlobalMutex.createLogicalThinPool TrimSpace sys vgname lvpool w
              = Some (mkOutput out None, w'))
             /\ (Error e <> "exit status 5"%string ->
                 GlobalMutex.createLogicalThinPool TrimSpace sys vgname lvpool
                   w
                 = Some (mkOutput out (Some e), w'))).
Proof.
  intros Hfree args. split.
  - destruct (LockArg_runCommand_outcome TrimSpace sys "lvcreate" args
                (emit [EvLock lock_argument] w)) as (evs & r & Hrun & Hout).
    exists (TrimSpace (output_bytes r)), (output_err r), evs.
    split; [exact Hrun|]. split.
    { destruct (run_outcome_started sys _ _ _ _ _ Hout) as ([|k] & Hk & ->);
        [lia | discriminate]. }
    intros e He.
    pose proof (LockArg_createLogicalThinPool_run TrimSpace sys
                  vgname lvpool w _ _ Hrun) as Hpool.
    cbn [trimmed output_err output_bytes] in Hpool. rewrite He in Hpool.
    split; intros Hmsg.
    + apply String.eqb_eq in Hmsg. now rewrite Hmsg in Hpool.
    + apply String.eqb_neq in Hmsg. rewrite Hmsg in Hpool.
      unfold trimmed in Hpool. now rewrite He in Hpool.
  - destruct (GlobalMutex_runCommand_outcome TrimSpace sys "lvcreate" args
                w Hfree) as (evs & r & Hrun & Hout).
    exists (TrimSpace (output_bytes r)), (output_err r), (emit (locked evs) w).
    split; [exact Hrun|].
    intros e He.
    pose proof (GlobalMutex_createLogicalThinPool_run TrimSpace sys
                  vgname lvpool w _ _ Hrun) as Hpool.
    cbn [trimmed output_err output_bytes] in Hpool. rewrite He in Hpool.
    split; intros Hmsg.
    + apply String.eqb_eq in Hmsg. now rewrite Hmsg in Hpool.
    + apply String.eqb_neq in Hmsg. rewrite Hmsg in Hpool.
      unfold trimmed in Hpool. now rewrite He in Hpool.
Qed.

Lemma createLogicalThinPool_already_exists_witness :
  let create :=
    Command "lvcreate" ["--thinpool"; "pool0"; "--extents"; "90%FREE"; "vg0"]
  in
  mutex idle = false
  /\ GlobalMutex.createLogicalThinPool TrimSpace_ascii pool_exists
       "vg0" "pool0" idle
     = Some (mkOutput "Logical Volume pool0 already exists" None,
             emit (locked (failed_attempts create 10)) idle).
Proof.
  intros create. split; [reflexivity|].
  destruct (createLogicalThinPool_already_exists TrimSpace_ascii pool_exists
              "vg0" "pool0" idle eq_refl)
    as [_ (out & err & w' & Hrun & Hpool)].
  assert (Hc : GlobalMutex.runCommand TrimSpace_ascii pool_exists "lvcreate"
                 ["--thinpool"; "pool0"; "--extents"; "90%FREE"; "vg0"] idle
               = Some (mkOutput "Logical Volume pool0 already exists"
                         (Some (ExecError "exit status 5")),
                       emit (locked (failed_attempts create 10)) idle))
    by reflexivity.
  rewrite Hc in Hrun. injection Hrun as <- <- <-.
  exact (proj1 (Hpool _ eq_refl) eq_refl).
Defined.

(** ** The format step *)

Section Format.

Variable TrimSpace : string -> string.
Variable sys : System.

Lemma LockArg_formatVolume_run (vgname lvname fstype : string) (w : World) :
  exists evs r,
    run_outcome sys retries (log w) (mkfs_command vgname lvname fstype) evs r
    /\ LockArg.formatVolume TrimSpace sys vgname lvname fstype w
       = Some (output_err r, emit evs w).
Proof.
  unfold LockArg.formatVolume.
  destruct (LockArg_runCommand_outcome TrimSpace sys
              ("mkfs." ++ fstype)%string
              (append
                 (if (fstype =? "ext4")%string then
                    append []
                      ["-E";
                       "nodiscard,lazy_itable_init=0,lazy_journal_init=0"]
                  else if (fstype =? "xfs")%string then append [] ["-K"]
                  else [])
                 [filepath.Join ["/dev/"; vgname; lvname]]) w)
    as (evs & r & Hrun & Hout).
  exists evs, r. split.
  - unfold mkfs_command.
    destruct (fstype =? "ext4")%string; [exact Hout|].
    destruct (fstype =? "xfs")%string; exact Hout.
  - unfold bind. now rewrite Hrun.
Qed.


End Format.





(** ** Volume removal *)

Section Removal.

Variable TrimSpace : string -> string.
Variable sys : System.

Lemma LockArg_removeLVMVolume_run (lvname vgname : string) (w : World) :
  let umount :=
    Command "umount" ["--lazy"; "--force"; "--all-targets";
                      filepath.Join ["/dev"; vgname; lvname]] in
  let lvremove := Command "lvremove" ["-y"; (vgname ++ "/" ++ lvname)%string]
  in
  exists ev1 r1,
    run_outcome sys retries (log w ++ [EvLock lock_argument]) umount ev1 r1
    /\ (output_err r1 = None
        \/ strings.Contains (TrimSpace (output_bytes r1)) "not mounted"
           = true ->
        exists ev2 r2,
          run_outcome sys retries ((log w ++ [EvLock lock_argument]) ++ ev1)
            lvremove ev2 r2
          /\ LockArg.removeLVMVolume TrimSpace sys false lvname vgname w
             = Some (trimmed TrimSpace r2, emit (locked_copy (ev1 ++ ev2)) w))
    /\ (forall e,
          output_err r1 = Some e ->
          strings.Contains (TrimSpace (output_bytes r1)) "not mounted"
          = false ->
          LockArg.removeLVMVolume TrimSpace sys false lvname vgname w
          = Some (mkOutput (TrimSpace (output_bytes r1))
                    (Some (withMessage e "Unable to unmount volume")),
                  emit (locked_copy ev1) w)).
Proof.
  intros umount lvremove.
  destruct (LockArg_runCommand_outcome TrimSpace sys "umount"
              ["--lazy"; "--force"; "--all-targets";
               filepath.Join ["/dev"; vgname; lvname]]
              (emit [EvLock lock_argument] w)) as (ev1 & r1 & H1 & O1).
  exists ev1, r1. split; [exact O1|].
  destruct (LockArg_runCommand_outcome TrimSpace sys "lvremove"
              ["-y"; (vgname ++ "/" ++ lvname)%string]
              (emit ev1 (emit [EvLock lock_argument] w)))
    as (ev2 & r2 & H2 & O2).
  split.
  - intros Hgo. exists ev2, r2. split; [exact O2|].
    unfold LockArg.removeLVMVolume. apply with_lock_unlocked.
    unfold bind. rewrite H1. cbn [trimmed output_err output_bytes].
    rewrite <- emit_emit, <- H2.
    destruct (output_err r1) as [e|]; [|reflexivity].
    destruct Hgo as [Hgo | Hgo]; [discriminate|].
    now rewrite Hgo.
  - intros e He Hno.
    unfold LockArg.removeLVMVolume. apply with_lock_unlocked.
    unfold bind. rewrite H1. cbn [trimmed output_err output_bytes].
    rewrite He, Hno. reflexivity.
Qed.

Lemma GlobalMutex_removeLVMVolume_run (lvname vgname : string) (w : World) :
  mutex w = false ->
  let deactivate :=
    Command "blkdeactivate" ["-u"; filepath.Join ["/dev"; vgname; lvname]] in
  let lvremove := Command "lvremove" ["-y"; (vgname ++ "/" ++ lvname)%string]
  in
  exists ev1 r1,
    run_outcome sys retries (log w ++ [EvLock package_mutex]) deactivate
      ev1 r1
    /\ (output_err r1 = None ->
        exists ev2 r2,
          run_outcome sys retries
            ((log w ++ locked ev1) ++ [EvLock package_mutex]) lvremove ev2 r2
          /\ GlobalMutex.removeLVMVolume TrimSpace sys lvname vgname w
             = Some (trimmed TrimSpace r2,
                     emit (locked ev1 ++ locked ev2) w))
    /\ (forall e,
          output_err r1 = Some e ->
          GlobalMutex.removeLVMVolume TrimSpace sys lvname vgname w
          = Some (mkOutput (TrimSpace (output_bytes r1))
                    (Some (withMessage e "Unable to unmount volume")),
                  emit (locked ev1) w)).
Proof.
  intros Hfree deactivate lvremove.
  destruct (GlobalMutex_runCommand_outcome TrimSpace sys "blkdeactivate"
              ["-u"; filepath.Join ["/dev"; vgname; lvname]] w Hfree)
    as (ev1 & r1 & H1 & O1).
  exists ev1, r1. split; [exact O1|].
  destruct (GlobalMutex_runCommand_outcome TrimSpace sys "lvremove"
              ["-y"; (vgname ++ "/" ++ lvname)%string]
              (emit (locked ev1) w) Hfree) as (ev2 & r2 & H2 & O2).
  split.
  - intros Hok. exists ev2, r2. split; [exact O2|].
    unfold GlobalMutex.removeLVMVolume, bind. rewrite H1.
    cbn [trimmed output_err output_bytes]. rewrite Hok, H2.
    now rewrite emit_emit.
  - intros e He.
    unfold GlobalMutex.removeLVMVolume, bind. rewrite H1.
    cbn [trimmed output_err output_bytes]. now rewrite He.
Qed.

End Removal.

(** C3, as amended.  Removal first runs the unmount step on the device
    [filepath.Join("/dev", vgname, lvname)], which is
    [/dev/<vgname>/<lvname>] for plain names.  In the revision that runs
    [umount], a failure whose output contains [not mounted] is passed over
    and [lvremove] runs, as it does after a successful unmount; any other
    failure ends the removal with the error wrapped with
    [Unable to unmount volume], after the ten attempts of [umount] and
    nothing else.  In the revision that runs [blkdeactivate -u] every
    failure of that step ends the removal in this way, whatever the
    output. *)
Theorem removeLVMVolume_unmount_step (TrimSpace : string -> string)
    (sys : System) (lvname vgname : string) (w : World) :
  mutex w = false ->
  let device := filepath.Join ["/dev"; vgname; lvname] in
  let umount :=
    Command "umount" ["--lazy"; "--force"; "--all-targets"; device] in
  let deactivate := Command "blkdeactivate" ["-u"; device] in
  let lvremove := Command "lvremove" ["-y"; (vgname ++ "/" ++ lvname)%string]
  in
  (exists ev1 r1,
     run_outcome sys retries (log w ++ [EvLock lock_argument]) umount ev1 r1
     /\ (output_err r1 = None
         \/ strings.Contains (TrimSpace (output_bytes r1)) "not mounted"
            = true ->
         exists ev2 r2 k,
           LockArg.removeLVMVolume TrimSpace sys false lvname vgname w
           = Some (mkOutput (TrimSpace (output_bytes r2)) (output_err r2),
                   emit (locked_copy (ev1 ++ ev2)) w)
           /\ 0 < k /\ started ev2 = repeat lvremove k)
     /\ (forall e,
           output_err r1 = Some e ->
           strings.Contains (TrimSpace (output_bytes r1)) "not mounted"
           = false ->
           LockArg.removeLVMVolume TrimSpace sys false lvname vgname w
           = Some (mkOutput (TrimSpace (output_bytes r1))
                     (Some (withMessage e "Unable to unmount volume")),
                   emit (locked_copy ev1) w)
           /\ started (locked_copy ev1) = repeat umount 10))
  /\ (exists ev1 r1,
        run_outcome sys retries (log w ++ [EvLock package_mutex]) deactivate
          ev1 r1
        /\ (output_err r1 = None ->
            exists ev2 r2 k,
              GlobalMutex.removeLVMVolume TrimSpace sys lvname vgname w
              = Some (mkOutput (TrimSpace (output_bytes r2)) (output_err r2),
                      emit (locked ev1 ++ locked ev2) w)
              /\ 0 < k /\ started ev2 = repeat lvremove k)
        /\ (forall e,
              output_err r1 = Some e ->
              GlobalMutex.removeLVMVolume TrimSpace sys lvname vgname w
              = Some (mkOutput (TrimSpace (output_bytes r1))
                        (Some (withMessage e "Unable to unmount volume")),
                      emit (locked ev1) w)
              /\ started (locked ev1) = repeat deactivate 10))
  /\ (filepath.plain_name vgname = true ->
      filepath.plain_name lvname = true ->
      device = ("/dev/" ++ vgname ++ "/" ++ lvname)%string).
Proof.
  intros Hfree device umount deactivate lvremove.
  split; [|split].
  - destruct (LockArg_removeLVMVolume_run TrimSpace sys lvname vgname w)
      as (ev1 & r1 & O1 & Hgo & Hstop).
    exists ev1, r1. split; [exact O1|]. split.
    + intros Htol. destruct (Hgo Htol) as (ev2 & r2 & O2 & Hrun).
      destruct (run_outcome_started sys _ _ _ _ _ O2) as (k & Hk & Hst).
      exists ev2, r2, k. split; [exact Hrun|]. split; [lia | exact Hst].
    + intros e He Hno. split; [exact (Hstop e He Hno)|].
      destruct (run_outcome_failed sys _ _ _ _ _ _ O1 He) as (-> & _ & _).
      unfold locked_copy. cbn [started].
      rewrite started_app, started_failed_attempts. cbn [started].
      apply app_nil_r.
  - destruct (GlobalMutex_removeLVMVolume_run TrimSpace sys lvname vgname w
                Hfree) as (ev1 & r1 & O1 & Hgo & Hstop).
    exists ev1, r1. split; [exact O1|]. split.
    + intros Hok. destruct (Hgo Hok) as (ev2 & r2 & O2 & Hrun).
      destruct (run_outcome_started sys _ _ _ _ _ O2) as (k & Hk & Hst).
      exists ev2, r2, k. split; [exact Hrun|]. split; [lia | exact Hst].
    + intros e He. split; [exact (Hstop e He)|].
      destruct (run_outcome_failed sys _ _ _ _ _ _ O1 He) as (-> & _ & _).
      now rewrite started_locked, started_failed_attempts.
  - apply Join_dev.
Qed.

Lemma removeLVMVolume_unmount_step_witness :
  let umount :=
    Command "umount" ["--lazy"; "--force"; "--all-targets"; "/dev/vg0/lv1"] in
  mutex idle = false
  /\ filepath.plain_name "vg0" = true
  /\ filepath.plain_name "lv1" = true
  /\ filepath.Join ["/dev"; "vg0"; "lv1"] = "/dev/vg0/lv1"%string
  /\ exists ev1 r1,
       run_outcome not_mounted retries (log idle ++ [EvLock lock_argument])
         umount ev1 r1.
Proof.
  intros umount.
  destruct (removeLVMVolume_unmount_step TrimSpace_ascii not_mounted
              "lv1" "vg0" idle eq_refl)
    as ((ev1 & r1 & Hrun & _) & _ & Hdev).
  split; [reflexivity|]. split; [reflexivity|]. split; [reflexivity|].
  split; [exact (Hdev eq_refl eq_refl)|].
  exists ev1, r1. exact Hrun.
Defined.

(** C3 as stated fails in the revision that runs [blkdeactivate]: a failure
    of the step whose output contains [not mounted] ends the removal, and
    [lvremove] is not started. *)
Lemma removeLVMVolume_blkdeactivate_not_tolerated :
  let deactivate := Command "blkdeactivate" ["-u"; "/dev/vg0/lv1"] in
  GlobalMutex.removeLVMVolume TrimSpace_ascii not_mounted "lv1" "vg0" idle
  = Some (mkOutput "umount: /dev/vg0/lv1: not mounted."
            (Some (withMessage (ExecError "exit status 32")
                     "Unable to unmount volume")),
          emit (locked (failed_attempts deactivate 10)) idle)
  /\ strings.Contains "umount: /dev/vg0/lv1: not mounted." "not mounted"
     = true
  /\ started (locked (failed_attempts deactivate 10))
     = repeat deactivate 10.
Proof. vm_compute. repeat split. Qed.

(** The same system under the revision that runs [umount]: the removal goes
    on to [lvremove] and succeeds. *)
Lemma removeLVMVolume_umount_tolerated :
  let umount :=
    Command "umount" ["--lazy"; "--force"; "--all-targets"; "/dev/vg0/lv1"] in
  let lvremove := Command "lvremove" ["-y"; "vg0/lv1"] in
  LockArg.removeLVMVolume TrimSpace_ascii not_mounted false "lv1" "vg0" idle
  = Some (mkOutput "Logical volume lv1 successfully removed" None,
          emit (locked_copy (failed_attempts umount 10
                             ++ [EvStart lvremove; EvExit lvremove true]))
            idle).
Proof. vm_compute. reflexivity. Qed.

(** ** Concurrent callers *)

Section Discipline.

Lemma walk_app (p : phase) (a b : list event) :
  walk p (a ++ b)
  = match walk p a with
    | Some q => walk q b
    | None => None
    end.
Proof.
  revert p. induction a as [|e a IH]; intros p; [reflexivity|].
  destruct p, e as [[|]|[|]| | |]; simpl; auto.
Qed.

(** What is left to do tells the phase. *)
Lemma walk_phase (p : phase) (es : list event) :
  walk p es = Some Out -> phase_of es = p.
Proof.
  destruct es as [|e es]; simpl.
  - now intros [= ->].
  - destruct p, e as [[|]|[|]| | |]; simpl; intros H;
      first [reflexivity | discriminate].
Qed.

Lemma walk_failed_attempts (c : Cmd) (k : nat) :
  walk Held (failed_attempts c k) = Some Held.
Proof. induction k as [|k IH]; simpl; [reflexivity | exact IH]. Qed.

Lemma walk_run_outcome (sys : System) (m : nat) (h : list event) (c : Cmd)
    (evs : list event) (r : Output) :
  run_outcome sys m h c evs r -> walk Held evs = Some Held.
Proof.
  intros [j _ _ _ | j _ _].
  - now rewrite walk_app, walk_failed_attempts.
  - apply walk_failed_attempts.
Qed.

Lemma walk_locked (sys : System) (m : nat) (h : list event) (c : Cmd)
    (evs : list event) (r : Output) :
  run_outcome sys m h c evs r -> walk Out (locked evs) = Some Out.
Proof.
  intros Hrun. unfold locked. cbn [walk].
  now rewrite walk_app, (walk_run_outcome _ _ _ _ _ _ Hrun).
Qed.

End Discipline.

Section SerialOperations.

Variable TrimSpace : string -> string.
Variable sys : System.

Lemma Serial_Return {A : Type} (a : A) : Serial (Return a).
Proof.
  intros w _. exists a, []. split; [|reflexivity].
  unfold Return. now rewrite emit_nil.
Qed.

Lemma Serial_bind {A B : Type} (m : M A) (k : A -> M B) :
  Serial m -> (forall a, Serial (k a)) -> Serial (bind m k).
Proof.
  intros Hm Hk w Hfree.
  destruct (Hm w Hfree) as (a & ev1 & Hrun1 & Hw1).
  destruct (Hk a (emit ev1 w) Hfree) as (b & ev2 & Hrun2 & Hw2).
  exists b, (ev1 ++ ev2). split.
  - unfold bind. now rewrite Hrun1, Hrun2, emit_emit.
  - now rewrite walk_app, Hw1.
Qed.

Lemma Serial_runCommand (cmd : string) (args : list string) :
  Serial (GlobalMutex.runCommand TrimSpace sys cmd args).
Proof.
  intros w Hfree.
  destruct (GlobalMutex_runCommand_outcome TrimSpace sys cmd args w Hfree)
    as (evs & r & Hrun & Hout).
  exists (trimmed TrimSpace r), (locked evs). split; [exact Hrun|].
  exact (walk_locked _ _ _ _ _ _ Hout).
Qed.

Ltac serial :=
  repeat first
    [ apply Serial_runCommand
    | apply Serial_Return
    | apply Serial_bind; [|intros ?]
    | match goal with
      | |- Serial (match ?x with _ => _ end) => destruct x
      end ].

Lemma Serial_perform (c : GlobalMutex.call) :
  Serial (GlobalMutex.perform TrimSpace sys c).
Proof.
  destruct c; cbv beta iota zeta delta
    [GlobalMutex.perform GlobalMutex.createLVMVolume
     GlobalMutex.removeLVMVolume GlobalMutex.createVolumeGroup
     GlobalMutex.createLogicalThinPool GlobalMutex.deleteVolumeGroup
     GlobalMutex.checkVG GlobalMutex.checkLV GlobalMutex.toggleactivateLV
     GlobalMutex.toggleactivateVG];
    serial.
Qed.

Lemma events_of_Serial {A : Type} (op : M A) :
  Serial op -> walk Out (events_of op) = Some Out.
Proof.
  intros Hop. destruct (Hop idle eq_refl) as (a & evs & Hrun & Hw).
  unfold events_of. now rewrite Hrun.
Qed.

End SerialOperations.

Section MutualExclusion.

Lemma filter_length_le {A : Type} (f g : A -> bool) (l : list A) :
  (forall x, In x l -> f x = true -> g x = true) ->
  length (filter f l) <= length (filter g l).
Proof.
  induction l as [|x l IH]; intros H; simpl; [lia|].
  assert (IH' : length (filter f l) <= length (filter g l))
    by (apply IH; intros y Hy; apply H; now right).
  destruct (f x) eqn:Hf.
  - rewrite (H x (or_introl eq_refl) Hf). simpl. lia.
  - destruct (g x); simpl; lia.
Qed.

Lemma filter_replace_nth {A : Type} (f : A -> bool) (l : list A) :
  forall (i : nat) (a a' : A),
  nth_error l i = Some a ->
  length (filter f (replace_nth i a' l)) + (if f a then 1 else 0)
  = length (filter f l) + (if f a' then 1 else 0).
Proof.
  induction l as [|x l IH]; intros [|i] a a' Hnth; simpl in *;
    try discriminate.
  - injection Hnth as ->. destruct (f a), (f a'); simpl; lia.
  - specialize (IH i a a' Hnth). destruct (f x); simpl; lia.
Qed.

Lemma Forall_replace_nth {A : Type} (P : A -> Prop) (l : list A) :
  forall (i : nat) (a : A),
  Forall P l -> P a -> Forall P (replace_nth i a l).
Proof.
  induction l as [|x l IH]; intros [|i] a Hl Ha; simpl;
    try constructor; inversion Hl; subst; auto.
Qed.

(** A step of a disciplined goroutine: it takes the free mutex, or gives
    back the mutex it holds, or leaves the mutex as it is. *)
Lemma step_goroutine_disciplined (held held' : bool) (g g' : goroutine) :
  disciplined g ->
  step_goroutine held g = Some (held', g') ->
  disciplined g'
  /\ ((held = false /\ held' = true /\ holds g = false /\ holds g' = true)
      \/ (held = true /\ held' = false /\ holds g = true /\ holds g' = false)
      \/ (held' = held /\ holds g' = holds g)).
Proof.
  intros [[p Hp] Hrun] Hstep.
  pose proof (walk_phase _ _ Hp) as Hphase.
  unfold step_goroutine in Hstep. unfold holds. rewrite Hphase in *.
  destruct g as [es cl run]. cbn [todo copy_locked running] in *.
  destruct es as [|e rest]; [discriminate|].
  destruct e as [[|]|[|]|c|c ok|ns]; destruct p; simpl in Hp;
    try discriminate; simpl in Hphase; try discriminate.
  - (* Lock *)
    destruct held; [discriminate|]. injection Hstep as <- <-.
    pose proof (walk_phase _ _ Hp) as Hrest. cbn [todo]. rewrite Hrest.
    split; [|left; repeat split].
    split; [exists Held; exact Hp|].
    unfold is_running in *. cbn [running todo] in *.
    intros H. specialize (Hrun H). discriminate.
  - (* Unlock *)
    destruct held; [|discriminate]. injection Hstep as <- <-.
    pose proof (walk_phase _ _ Hp) as Hrest. cbn [todo]. rewrite Hrest.
    split; [|right; left; repeat split].
    split; [exists Out; exact Hp|].
    unfold is_running in *. cbn [running todo] in *.
    intros H. specialize (Hrun H). discriminate.
  - (* Start *)
    injection Hstep as <- <-.
    pose proof (walk_phase _ _ Hp) as Hrest. cbn [todo]. rewrite Hrest.
    split; [|right; right; split; reflexivity].
    split; [exists Waiting; exact Hp | intros _; exact Hrest].
  - (* Exit *)
    injection Hstep as <- <-.
    pose proof (walk_phase _ _ Hp) as Hrest. cbn [todo]. rewrite Hrest.
    split; [|right; right; split; reflexivity].
    split; [exists Held; exact Hp | discriminate].
  - (* Sleep *)
    injection Hstep as <- <-.
    pose proof (walk_phase _ _ Hp) as Hrest. cbn [todo]. rewrite Hrest.
    split; [|right; right; split; reflexivity].
    split; [exists Held; exact Hp|].
    unfold is_running in *. cbn [running todo] in *.
    intros H. specialize (Hrun H). discriminate.
Qed.

Lemma schedule_exclusive (i : nat) (m m' : machine) :
  exclusive m -> schedule i m = Some m' -> exclusive m'.
Proof.
  intros [Hall Hcount] Hs. unfold schedule in Hs.
  destruct (nth_error (goroutines m) i) as [g|] eqn:Hnth; [|discriminate].
  destruct (step_goroutine (package_lock m) g) as [[held' g']|] eqn:Hstep;
    [|discriminate].
  injection Hs as <-.
  assert (Hg : disciplined g).
  { rewrite Forall_forall in Hall. apply Hall.
    eapply nth_error_In; eassumption. }
  destruct (step_goroutine_disciplined _ _ _ _ Hg Hstep) as [Hg' Hlock].
  split; cbn [goroutines package_lock].
  - now apply Forall_replace_nth.
  - pose proof (filter_replace_nth holds _ _ _ g' Hnth) as Hlen.
    destruct Hlock as [(Hf & -> & Hh & Hh') | [(Ht & -> & Hh & Hh')
                      | (-> & Hh')]].
    + rewrite Hf in Hcount. rewrite Hh, Hh' in Hlen. lia.
    + rewrite Ht in Hcount. rewrite Hh, Hh' in Hlen. lia.
    + rewrite Hh' in Hlen. destruct (holds g); lia.
Qed.

Lemma run_schedule_exclusive (s : list nat) :
  forall m m', exclusive m -> run_schedule s m = Some m' -> exclusive m'.
Proof.
  induction s as [|i s IH]; intros m m' Hm Hrun; simpl in Hrun.
  - now injection Hrun as <-.
  - destruct (schedule i m) as [m1|] eqn:Hs; [|discriminate].
    eapply IH; [|exact Hrun]. eapply schedule_exclusive; eassumption.
Qed.

Lemma exclusive_in_flight (m : machine) : exclusive m -> in_flight m <= 1.
Proof.
  intros [Hall Hcount]. unfold in_flight.
  transitivity (length (filter holds (goroutines m))).
  - apply filter_length_le. intros g Hin Hrun.
    rewrite Forall_forall in Hall. destruct (Hall g Hin) as [_ Hw].
    unfold holds. now rewrite (Hw Hrun).
  - rewrite Hcount. destruct (package_lock m); lia.
Qed.

Lemma spawn_exclusive (programs : list (list event)) :
  Forall (fun p => walk Out p = Some Out) programs ->
  exclusive (spawn programs).
Proof.
  intros Hall. unfold spawn, exclusive. cbn [goroutines package_lock].
  induction Hall as [|p ps Hp _ [IH1 IH2]]; simpl.
  - split; [constructor | reflexivity].
  - split.
    + constructor; [|exact IH1].
      split; [exists Out; exact Hp | discriminate].
    + unfold holds at 1. cbn [todo]. rewrite (walk_phase _ _ Hp).
      exact IH2.
Qed.

End MutualExclusion.

(** In the revision with the package-level mutex at most one external
    process exists at any instant: whatever the calls of the goroutines,
    the answers of the commands and the interleaving of the steps.  Every
    call follows the discipline of [runCommand], which takes the mutex
    before it starts the first attempt and gives it back after the last
    one. *)
Theorem GlobalMutex_at_most_one_in_flight (TrimSpace : string -> string)
    (calls : list (System * GlobalMutex.call)) (s : list nat) (m : machine) :
  run_schedule s
    (spawn (map (fun sc =>
                   events_of (GlobalMutex.perform TrimSpace (fst sc) (snd sc)))
              calls))
  = Some m ->
  in_flight m <= 1.
Proof.
  intros Hrun. apply exclusive_in_flight.
  eapply run_schedule_exclusive; [|exact Hrun].
  apply spawn_exclusive. apply Forall_forall. intros p Hp.
  apply in_map_iff in Hp as ([sys c] & <- & _).
  apply events_of_Serial, Serial_perform.
Qed.

(** C1 fails in the revision with the lock argument.  Two goroutines call
    [createVolumeGroup] with the same unlocked mutex; each one locks the
    copy it received and starts its [vgcreate]: after two steps of each
    goroutine two external processes exist. *)
Lemma LockArg_two_processes_in_flight :
  let first :=
    events_of (LockArg.perform TrimSpace_ascii (fails_first 0) false
                 (LockArg.CreateVolumeGroup "/dev/sdb" "vg0")) in
  let second :=
    events_of (LockArg.perform TrimSpace_ascii (fails_first 0) false
                 (LockArg.CreateVolumeGroup "/dev/sdc" "vg1")) in
  first = [EvLock lock_argument;
           EvStart (Command "vgcreate" ["vg0"; "/dev/sdb"]);
           EvExit (Command "vgcreate" ["vg0"; "/dev/sdb"]) true;
           EvUnlock lock_argument]
  /\ option_map in_flight (run_schedule [0; 0; 1; 1] (spawn [first; second]))
     = Some 2
  /\ option_map (fun m => map running (goroutines m))
       (run_schedule [0; 0; 1; 1] (spawn [first; second]))
     = Some [Some (Command "vgcreate" ["vg0"; "/dev/sdb"]);
             Some (Command "vgcreate" ["vg1"; "/dev/sdc"])].
Proof. vm_compute. repeat split. Qed.

(** [formatVolume] of that revision takes no lock at all. *)
Lemma LockArg_formatVolume_takes_no_lock :
  events_of (LockArg.formatVolume TrimSpace_ascii (fails_first 0)
               "vg0" "lv1" "xfs")
  = [EvStart (Command "mkfs.xfs" ["-K"; "/dev/vg0/lv1"]);
     EvExit (Command "mkfs.xfs" ["-K"; "/dev/vg0/lv1"]) true].
Proof. reflexivity. Qed.

(** ** Goroutines that make several calls *)

Section Progress.

Lemma walk_program (TrimSpace : string -> string)
    (calls : list (System * GlobalMutex.call)) :
  walk Out (GlobalMutex_program TrimSpace calls) = Some Out.
Proof.
  unfold GlobalMutex_program.
  induction calls as [|[sys c] calls IH]; [reflexivity|].
  cbn [flat_map fst snd]. rewrite walk_app.
  now rewrite (events_of_Serial _ (Serial_perform TrimSpace sys c)).
Qed.

Lemma spawn_programs_exclusive (TrimSpace : string -> string)
    (callers : list (list (System * GlobalMutex.call))) :
  exclusive (spawn (map (GlobalMutex_program TrimSpace) callers)).
Proof.
  apply spawn_exclusive, Forall_forall. intros p Hp.
  apply in_map_iff in Hp as (calls & <- & _). apply walk_program.
Qed.

Lemma filter_nonempty_nth {A : Type} (f : A -> bool) (l : list A) :
  0 < length (filter f l) ->
  exists i a, nth_error l i = Some a /\ f a = true.
Proof.
  induction l as [|x l IH]; simpl; [lia|].
  destruct (f x) eqn:Hf.
  - intros _. exists 0, x. split; [reflexivity | exact Hf].
  - intros H. destruct (IH H) as (i & a & Hnth & Ha).
    exists (S i), a. split; assumption.
Qed.

Lemma filter_empty_all {A : Type} (f : A -> bool) (l : list A) :
  length (filter f l) = 0 -> forall a, In a l -> f a = false.
Proof.
  induction l as [|x l IH]; simpl; [intros _ a []|].
  destruct (f x) eqn:Hf; [discriminate|].
  intros H a [<- | Ha]; [exact Hf | now apply IH].
Qed.

Lemma forallb_false_nth {A : Type} (f : A -> bool) (l : list A) :
  forallb f l = false ->
  exists i a, nth_error l i = Some a /\ f a = false.
Proof.
  induction l as [|x l IH]; simpl; [discriminate|].
  destruct (f x) eqn:Hf.
  - intros H. destruct (IH H) as (i & a & Hnth & Ha).
    exists (S i), a. split; assumption.
  - intros _. exists 0, x. split; [reflexivity | exact Hf].
Qed.

(** A disciplined goroutine that holds the mutex can make its next step. *)
Lemma holder_can_step (g : goroutine) :
  disciplined g -> holds g = true ->
  exists held' g', step_goroutine true g = Some (held', g').
Proof.
  intros [[p Hp] _] Hh.
  pose proof (walk_phase _ _ Hp) as Hphase.
  unfold holds in Hh. rewrite Hphase in Hh.
  unfold step_goroutine.
  destruct (todo g) as [|e rest]; [simpl in Hphase; subst p; discriminate|].
  destruct e as [[|]|[|]|c|c ok|ns]; destruct p; simpl in Hp, Hphase;
    try discriminate; eauto.
Qed.

(** When nobody holds the mutex, a disciplined goroutine that is not done
    can take it. *)
Lemma waiter_can_step (g : goroutine) :
  disciplined g -> holds g = false -> todo g <> [] ->
  exists held' g', step_goroutine false g = Some (held', g').
Proof.
  intros [[p Hp] _] Hh Htodo.
  pose proof (walk_phase _ _ Hp) as Hphase.
  unfold holds in Hh. rewrite Hphase in Hh.
  unfold step_goroutine.
  destruct (todo g) as [|e rest]; [congruence|].
  destruct e as [[|]|[|]|c|c ok|ns]; destruct p; simpl in Hp, Hphase;
    try discriminate; eauto.
Qed.

(** No deadlock: while a goroutine has something left to do, some goroutine
    can step. *)
Lemma exclusive_progress (m : machine) :
  exclusive m -> completed m = false ->
  exists i m', schedule i m = Some m'.
Proof.
  intros [Hall Hcount] Hnot. rewrite Forall_forall in Hall.
  unfold schedule.
  destruct (package_lock m) eqn:Hlock.
  - destruct (filter_nonempty_nth holds (goroutines m))
      as (i & g & Hnth & Hh); [lia|].
    destruct (holder_can_step g (Hall g (nth_error_In _ _ Hnth)) Hh)
      as (held' & g' & Hstep).
    exists i. rewrite Hnth, Hstep. eauto.
  - destruct (forallb_false_nth _ _ Hnot) as (i & g & Hnth & Hg).
    assert (Hin : In g (goroutines m)) by (eapply nth_error_In; eauto).
    assert (Htodo : todo g <> []) by (destruct (todo g); congruence).
    destruct (waiter_can_step g (Hall g Hin)
                (filter_empty_all _ _ Hcount g Hin) Htodo)
      as (held' & g' & Hstep).
    exists i. rewrite Hnth, Hstep. eauto.
Qed.

Lemma step_goroutine_todo (held held' : bool) (g g' : goroutine) :
  step_goroutine held g = Some (held', g') ->
  length (todo g) = S (length (todo g')).
Proof.
  unfold step_goroutine. destruct (todo g) as [|e rest]; [discriminate|].
  destruct e as [[|]|[|]|c|c ok|ns]; try destruct held;
    try destruct (copy_locked g); intros H; try discriminate;
    injection H as <- <-; reflexivity.
Qed.

Lemma list_sum_replace_nth (f : goroutine -> nat) (l : list goroutine) :
  forall (i : nat) (g g' : goroutine),
  nth_error l i = Some g ->
  f g = S (f g') ->
  list_sum (map f l) = S (list_sum (map f (replace_nth i g' l))).
Proof.
  induction l as [|x l IH]; intros [|i] g g' Hnth Hf; simpl in *;
    try discriminate.
  - injection Hnth as ->. lia.
  - rewrite (IH i g g' Hnth Hf). lia.
Qed.

Lemma schedule_remaining (i : nat) (m m' : machine) :
  schedule i m = Some m' -> remaining m = S (remaining m').
Proof.
  unfold schedule, remaining.
  destruct (nth_error (goroutines m) i) as [g|] eqn:Hnth; [|discriminate].
  destruct (step_goroutine (package_lock m) g) as [[held' g']|] eqn:Hstep;
    [|discriminate].
  intros [= <-]. cbn [goroutines].
  eapply list_sum_replace_nth; [exact Hnth|].
  eapply step_goroutine_todo; exact Hstep.
Qed.

Lemma run_schedule_app (s s' : list nat) (m : machine) :
  run_schedule (s ++ s') m
  = match run_schedule s m with
    | Some m' => run_schedule s' m'
    | None => None
    end.
Proof.
  revert m. induction s as [|i s IH]; intros m; simpl; [reflexivity|].
  destruct (schedule i m); [apply IH | reflexivity].
Qed.

(** From a state that keeps the invariant, the goroutines can be run until
    all of them are done. *)
Lemma exclusive_completes (n : nat) :
  forall m, remaining m = n -> exclusive m ->
  exists s m',
    run_schedule s m = Some m' /\ completed m' = true /\ exclusive m'.
Proof.
  induction n as [|n IH]; intros m Hn Hm.
  - exists [], m. split; [reflexivity|]. split; [|exact Hm].
    destruct (completed m) eqn:Hc; [reflexivity|].
    destruct (exclusive_progress m Hm Hc) as (i & m' & Hs).
    apply schedule_remaining in Hs. lia.
  - destruct (completed m) eqn:Hc.
    + exists [], m. split; [reflexivity|]. split; [exact Hc | exact Hm].
    + destruct (exclusive_progress m Hm Hc) as (i & m1 & Hs).
      pose proof (schedule_remaining _ _ _ Hs) as Hrem.
      destruct (IH m1) as (s & m' & Hrun & Hdone & Hex);
        [lia | eapply schedule_exclusive; eassumption |].
      exists (i :: s), m'. simpl. rewrite Hs.
      split; [exact Hrun|]. split; [exact Hdone | exact Hex].
Qed.

Lemma filter_all_false {A : Type} (f : A -> bool) (l : list A) :
  (forall a, In a l -> f a = false) -> length (filter f l) = 0.
Proof.
  induction l as [|x l IH]; intros Hf; [reflexivity|].
  simpl. rewrite (Hf x (or_introl eq_refl)). apply IH.
  intros a Ha. apply Hf. now right.
Qed.

Lemma completed_idle (m : machine) :
  exclusive m -> completed m = true ->
  package_lock m = false /\ in_flight m = 0.
Proof.
  intros [Hall Hcount] Hdone. rewrite Forall_forall in Hall.
  unfold completed in Hdone. rewrite forallb_forall in Hdone.
  pose proof (fun f => filter_all_false f (goroutines m)) as Hnone.
  split.
  - rewrite Hnone in Hcount.
    + destruct (package_lock m); [discriminate | reflexivity].
    + intros g Hg. specialize (Hdone g Hg). unfold holds.
      destruct (todo g); [reflexivity | discriminate].
  - unfold in_flight. apply Hnone. intros g Hg.
    specialize (Hdone g Hg). destruct (Hall g Hg) as [_ Hrun].
    destruct (is_running g); [|reflexivity].
    specialize (Hrun eq_refl). destruct (todo g); discriminate.
Qed.

Lemma exclusive_lock_of_in_flight (m : machine) :
  exclusive m ->
  (in_flight m = 1 -> package_lock m = true)
  /\ (forall g, In g (goroutines m) -> is_running g = true ->
      holds g = true).
Proof.
  intros Hm. pose proof (exclusive_in_flight m Hm) as Hle.
  destruct Hm as [Hall Hcount]. split.
  - intros H1.
    assert (Hlen : in_flight m <= length (filter holds (goroutines m))).
    { unfold in_flight. apply filter_length_le. intros g Hin Hrun.
      rewrite Forall_forall in Hall. destruct (Hall g Hin) as [_ Hw].
      unfold holds. now rewrite (Hw Hrun). }
    destruct (package_lock m); [reflexivity | lia].
  - intros g Hin Hrun. rewrite Forall_forall in Hall.
    destruct (Hall g Hin) as [_ Hw]. unfold holds. now rewrite (Hw Hrun).
Qed.

End Progress.

(** X1. With the package-level mutex, goroutines that each make any
    sequence of lifecycle calls never have two external processes at once,
    whatever the commands answer and however the steps interleave; a
    process exists only while the mutex is locked, and it belongs to a
    goroutine that holds the mutex. *)
Theorem GlobalMutex_callers_exclude_each_other
    (TrimSpace : string -> string)
    (callers : list (list (System * GlobalMutex.call)))
    (s : list nat) (m : machine) :
  run_schedule s (spawn (map (GlobalMutex_program TrimSpace) callers))
  = Some m ->
  in_flight m <= 1
  /\ (in_flight m = 1 -> package_lock m = true)
  /\ (forall g, In g (goroutines m) -> is_running g = true ->
      holds g = true).
Proof.
  intros Hrun.
  assert (Hm : exclusive m).
  { eapply run_schedule_exclusive; [|exact Hrun].
    apply spawn_programs_exclusive. }
  split; [now apply exclusive_in_flight|].
  now apply exclusive_lock_of_in_flight.
Qed.

(** X2. With the package-level mutex the callers never deadlock and every
    call comes to its end: from every state that the goroutines can reach,
    some schedule runs all of them to completion, and then the mutex is
    free and no process is left. *)
Theorem GlobalMutex_callers_complete (TrimSpace : string -> string)
    (callers : list (list (System * GlobalMutex.call)))
    (s : list nat) (m : machine) :
  run_schedule s (spawn (map (GlobalMutex_program TrimSpace) callers))
  = Some m ->
  exists s' m',
    run_schedule (s ++ s')
      (spawn (map (GlobalMutex_program TrimSpace) callers))
    = Some m'
    /\ completed m' = true
    /\ package_lock m' = false
    /\ in_flight m' = 0.
Proof.
  intros Hrun.
  assert (Hm : exclusive m).
  { eapply run_schedule_exclusive; [|exact Hrun].
    apply spawn_programs_exclusive. }
  destruct (exclusive_completes (remaining m) m eq_refl Hm)
    as (s' & m' & Hrun' & Hdone & Hm').
  exists s', m'. rewrite run_schedule_app, Hrun.
  split; [exact Hrun'|]. split; [exact Hdone|].
  now apply completed_idle.
Qed.

Lemma GlobalMutex_callers_exclude_each_other_witness :
  exists m,
    run_schedule [0; 0; 0; 0; 0]
      (spawn (map (GlobalMutex_program TrimSpace_ascii)
                [[(fails_first 1,
                   GlobalMutex.CreateVolumeGroup "/dev/sdb" "vg0");
                  (fails_first 0, GlobalMutex.CheckVG "vg0")];
                 [(always_fails, GlobalMutex.RemoveLVMVolume "lv1" "vg0")]]))
    = Some m
    /\ in_flight m <= 1
    /\ (in_flight m = 1 -> package_lock m = true).
Proof.
  eexists. split; [vm_compute; reflexivity|].
  refine (let H := GlobalMutex_callers_exclude_each_other TrimSpace_ascii
                     [[(fails_first 1,
                        GlobalMutex.CreateVolumeGroup "/dev/sdb" "vg0");
                       (fails_first 0, GlobalMutex.CheckVG "vg0")];
                      [(always_fails,
                        GlobalMutex.RemoveLVMVolume "lv1" "vg0")]]
                     [0; 0; 0; 0; 0] _ eq_refl in
          conj (proj1 H) (proj1 (proj2 H))).
Defined.

Lemma GlobalMutex_callers_complete_witness :
  exists s' m',
    run_schedule ([0; 0; 0; 0; 0] ++ s')
      (spawn (map (GlobalMutex_program TrimSpace_ascii)
                [[(fails_first 1,
                   GlobalMutex.CreateVolumeGroup "/dev/sdb" "vg0");
                  (fails_first 0, GlobalMutex.CheckVG "vg0")];
                 [(always_fails, GlobalMutex.RemoveLVMVolume "lv1" "vg0")]]))
    = Some m'
    /\ completed m' = true
    /\ package_lock m' = false
    /\ in_flight m' = 0.
Proof.
  refine (GlobalMutex_callers_complete TrimSpace_ascii
            [[(fails_first 1, GlobalMutex.CreateVolumeGroup "/dev/sdb" "vg0");
              (fails_first 0, GlobalMutex.CheckVG "vg0")];
             [(always_fails, GlobalMutex.RemoveLVMVolume "lv1" "vg0")]]
            [0; 0; 0; 0; 0] _ _).
  vm_compute. reflexivity.
Defined.

(** ** How many processes a call starts *)

Section ProcessCount.

Variable TrimSpace : string -> string.
Variable sys : System.

Lemma Runs_Return {A : Type} (free : bool) (a : A) :
  Runs free 0 0 (Return a).
Proof.
  intros w _. exists a, []. split; [|simpl; lia].
  unfold Return. now rewrite emit_nil.
Qed.


Lemma Runs_weaken {A : Type} (free : bool) (lo hi lo' hi' : nat)
    (op : M A) :
  Runs free lo hi op -> lo' <= lo -> hi <= hi' -> Runs free lo' hi' op.
Proof.
  intros Hop Hlo Hhi w Hfree.
  destruct (Hop w Hfree) as (a & evs & Hrun & Hn).
  exists a, evs. split; [exact Hrun | lia].
Qed.


Lemma Runs_LockArg_runCommand (free : bool) (cmd : string)
    (args : list string) :
  Runs free 1 10 (LockArg.runCommand TrimSpace sys cmd args).
Proof.
  intros w _.
  destruct (LockArg_runCommand_outcome TrimSpace sys cmd args w)
    as (evs & r & Hrun & Hout).
  destruct (run_outcome_started sys _ _ _ _ _ Hout) as (k & Hk & Hst).
  exists (trimmed TrimSpace r), evs. split; [exact Hrun|].
  rewrite Hst, repeat_length. exact Hk.
Qed.




End ProcessCount.






(** ** Retries of an existing pool, sleeps, and the device of a volume *)

Section MoreRuns.

Variable TrimSpace : string -> string.
Variable sys : System.

Lemma sleeps_app (a b : list event) : sleeps (a ++ b) = sleeps a ++ sleeps b.
Proof.
  induction a as [|e a IH]; simpl; [reflexivity|].
  destruct e; simpl; now rewrite IH.
Qed.

Lemma sleeps_failed_attempts (c : Cmd) (k : nat) :
  sleeps (failed_attempts c k) = repeat 100000%Z k.
Proof. induction k as [|k IH]; simpl; [reflexivity | now rewrite IH]. Qed.

(** The sleeps of a run: one of 100000 ns after each attempt that failed,
    the last one included, and none after the attempt that succeeded. *)
Lemma run_outcome_sleeps (m : nat) (h : list event) (c : Cmd)
    (evs : list event) (r : Output) :
  run_outcome sys m h c evs r ->
  sleeps evs
  = repeat 100000%Z (length (started evs) - length (finished evs))
  /\ (output_err r <> None -> sleeps evs = repeat 100000%Z m)
  /\ (output_err r = None ->
      exists pre, evs = pre ++ [EvStart c; EvExit c true]
                  /\ sleeps evs = sleeps pre).
Proof.
  intros Hrun.
  destruct (run_outcome_cases sys _ _ _ _ _ Hrun)
    as [[Hok (j & Hj & ->)] | [Herr ->]].
  - rewrite sleeps_app, started_app, finished_app, !length_app.
    rewrite sleeps_failed_attempts, started_failed_attempts,
      finished_failed_attempts, repeat_length.
    cbn [sleeps started finished length app]. rewrite app_nil_r.
    split; [f_equal; lia|]. split; [congruence|].
    intros _. exists (failed_attempts c j). split; [reflexivity|].
    now rewrite sleeps_failed_attempts.
  - rewrite sleeps_failed_attempts, started_failed_attempts,
      finished_failed_attempts, repeat_length.
    cbn [length]. split; [f_equal; lia|]. split; [reflexivity|].
    intros Hok. congruence.
Qed.

Lemma Join_dev_either (vgname lvname : string) :
  filepath.Join ["/dev/"; vgname; lvname]
  = filepath.Join ["/dev"; vgname; lvname].
Proof.
  cbn [filepath.Join String.eqb Ascii.eqb Bool.eqb strings.Join
       String.concat].
  set (rest := (vgname ++ "/" ++ lvname)%string).
  change ("/dev/" ++ "/" ++ rest)%string
    with (String filepath.Separator
            ("dev" ++ String filepath.Separator
               ("" ++ String filepath.Separator rest)))%string.
  change ("/dev" ++ "/" ++ rest)%string
    with (String filepath.Separator
            ("dev" ++ String filepath.Separator rest))%string.
  unfold filepath.Clean. cbn [filepath.elements]. rewrite Ascii.eqb_refl.
  rewrite !elements_app_separator.
  change (filepath.elements "dev") with ["dev"%string].
  change (filepath.elements "") with [""%string].
  cbn [app fold_left]. reflexivity.
Qed.

End MoreRuns.

(** X6. An existing pool is found only after the retries: when the ten
    attempts of [lvcreate --thinpool] all fail and the error of the tenth
    reads [exit status 5], [createLogicalThinPool] has started ten
    processes and slept after each before it returns the output of the
    tenth with a nil error.  The errors of the first nine attempts do not
    matter. *)
Theorem createLogicalThinPool_retries_before_success
    (TrimSpace : string -> string) (sys : System) (vgname lvpool : string)
    (w : World) :
  mutex w = false ->
  let create :=
    Command "lvcreate" ["--thinpool"; lvpool; "--extents"; "90%FREE"; vgname]
  in
  let h := log w ++ [EvLock package_mutex] in
  (forall i, i < 10 -> attempt_fails sys h create i) ->
  (exists e,
     output_err (sys (h ++ failed_attempts create 9) create) = Some e
     /\ Error e = "exit status 5"%string) ->
  GlobalMutex.createLogicalThinPool TrimSpace sys vgname lvpool w
  = Some (mkOutput
            (TrimSpace
               (output_bytes (sys (h ++ failed_attempts create 9) create)))
            None,
          emit (locked (failed_attempts create 10)) w)
  /\ length (started (locked (failed_attempts create 10))) = 10
  /\ sleeps (locked (failed_attempts create 10)) = repeat 100000%Z 10.
Proof.
  intros Hfree create h Hall (e & He & Hmsg).
  destruct (GlobalMutex_runCommand_exhausted TrimSpace sys "lvcreate"
              ["--thinpool"; lvpool; "--extents"; "90%FREE"; vgname]
              w Hfree Hall) as [Hrun _].
  split; [|split; reflexivity].
  rewrite (GlobalMutex_createLogicalThinPool_run TrimSpace sys
             vgname lvpool w _ _ Hrun).
  cbn [trimmed output_err output_bytes]. fold create h. rewrite He.
  apply String.eqb_eq in Hmsg. now rewrite Hmsg.
Qed.

Lemma createLogicalThinPool_retries_before_success_witness :
  let create :=
    Command "lvcreate" ["--thinpool"; "pool0"; "--extents"; "90%FREE"; "vg0"]
  in
  mutex idle = false
  /\ GlobalMutex.createLogicalThinPool TrimSpace_ascii exists_on_tenth
       "vg0" "pool0" idle
     = Some (mkOutput "pool0 already exists" None,
             emit (locked (failed_attempts create 10)) idle).
Proof.
  intros create. split; [reflexivity|].
  refine (proj1 (createLogicalThinPool_retries_before_success
                   TrimSpace_ascii exists_on_tenth "vg0" "pool0" idle
                   eq_refl _ _)).
  - intros i Hi.
    do 10 (destruct i as [|i]; [discriminate|]). lia.
  - exists (ExecError "exit status 5"). split; reflexivity.
Defined.

(** X7. [runCommand] sleeps 100000 ns after every attempt that failed,
    also after the tenth, and never after an attempt that succeeded: the
    sleeps of a run are as many as its failed attempts, ten when it returns
    an error, and a run that returns no error ends with the start and the
    end of the successful process.  Both revisions. *)
Theorem runCommand_sleeps_after_failures (TrimSpace : string -> string)
    (sys : System) (cmd : string) (args : list string) (w : World) :
  mutex w = false ->
  let c := Command cmd args in
  (exists r evs,
     LockArg.runCommand TrimSpace sys cmd args w = Some (r, emit evs w)
     /\ sleeps evs
        = repeat 100000%Z (length (started evs) - length (finished evs))
     /\ (output_err r <> None -> sleeps evs = repeat 100000%Z 10)
     /\ (output_err r = None ->
         exists pre, evs = pre ++ [EvStart c; EvExit c true]
                     /\ sleeps evs = sleeps pre))
  /\ (exists r evs,
        GlobalMutex.runCommand TrimSpace sys cmd args w
        = Some (r, emit (locked evs) w)
        /\ sleeps evs
           = repeat 100000%Z (length (started evs) - length (finished evs))
        /\ (output_err r <> None -> sleeps evs = repeat 100000%Z 10)
        /\ (output_err r = None ->
            exists pre, evs = pre ++ [EvStart c; EvExit c true]
                        /\ sleeps evs = sleeps pre)).
Proof.
  intros Hfree c. split.
  - destruct (LockArg_runCommand_outcome TrimSpace sys cmd args w)
      as (evs & r & Hrun & Hout).
    exists (trimmed TrimSpace r), evs. split; [exact Hrun|].
    exact (run_outcome_sleeps sys _ _ _ _ _ Hout).
  - destruct (GlobalMutex_runCommand_outcome TrimSpace sys cmd args w Hfree)
      as (evs & r & Hrun & Hout).
    exists (trimmed TrimSpace r), evs. split; [exact Hrun|].
    exact (run_outcome_sleeps sys _ _ _ _ _ Hout).
Qed.

Lemma runCommand_sleeps_after_failures_witness :
  mutex idle = false
  /\ exists r evs,
       LockArg.runCommand TrimSpace_ascii (fails_first 3) "vgs" ["vg0"] idle
       = Some (r, emit evs idle)
       /\ sleeps evs
          = repeat 100000%Z (length (started evs) - length (finished evs)).
Proof.
  split; [reflexivity|].
  destruct (runCommand_sleeps_after_failures TrimSpace_ascii (fails_first 3)
              "vgs" ["vg0"] idle eq_refl)
    as [(r & evs & Hrun & Hs & _) _].
  exists r, evs. split; [exact Hrun | exact Hs].
Defined.

(** X8. The format step and the removal name the same device for every
    volume, whatever the names: [formatVolume] joins the names to [/dev/]
    and [removeLVMVolume] to [/dev], and [filepath.Join] gives the same
    path for both; it is the last argument of the first command of
    each. *)
Theorem format_and_removal_name_the_same_device
    (TrimSpace : string -> string) (sys sys' : System)
    (vgname lvname fstype : string) (w w' : World) :
  filepath.Join ["/dev/"; vgname; lvname]
  = filepath.Join ["/dev"; vgname; lvname]
  /\ exists err evs r evs' mkfs umount,
       LockArg.formatVolume TrimSpace sys vgname lvname fstype w
       = Some (err, emit evs w)
       /\ LockArg.removeLVMVolume TrimSpace sys' false lvname vgname w'
          = Some (r, emit evs' w')
       /\ hd_error (started evs) = Some mkfs
       /\ hd_error (started evs') = Some umount
       /\ Path umount = "umount"%string
       /\ last (Args mkfs) EmptyString = last (Args umount) EmptyString.
Proof.
  split; [apply Join_dev_either|].
  destruct (LockArg_formatVolume_run TrimSpace sys vgname lvname fstype w)
    as (evs & r1 & Hout & Hrun).
  destruct (run_outcome_started sys _ _ _ _ _ Hout) as (k & Hk & Hst).
  destruct (LockArg_removeLVMVolume_run TrimSpace sys' lvname vgname w')
    as (ev1 & r2 & O1 & Hgo & Hstop).
  destruct (run_outcome_started sys' _ _ _ _ _ O1) as (k1 & Hk1 & Hst1).
  assert (Hremove : exists r evs',
             LockArg.removeLVMVolume TrimSpace sys' false lvname vgname w'
             = Some (r, emit (locked_copy (ev1 ++ evs')) w')).
  { destruct (output_err r2) as [e|] eqn:He.
    - destruct (strings.Contains (TrimSpace (output_bytes r2))
                  "not mounted") eqn:Hc.
      + destruct (Hgo (or_intror eq_refl)) as (ev2 & r & _ & Hr). eauto.
      + exists (mkOutput (TrimSpace (output_bytes r2))
                  (Some (withMessage e "Unable to unmount volume"))), [].
        rewrite app_nil_r. exact (Hstop e eq_refl eq_refl).
    - destruct (Hgo (or_introl eq_refl)) as (ev2 & r & _ & Hr). eauto. }
  destruct Hremove as (r & evs' & Hremove).
  exists (output_err r1), evs, r, (locked_copy (ev1 ++ evs')),
    (mkfs_command vgname lvname fstype),
    (Command "umount" ["--lazy"; "--force"; "--all-targets";
                       filepath.Join ["/dev"; vgname; lvname]]).
  split; [exact Hrun|]. split; [exact Hremove|].
  split; [rewrite Hst; destruct k; [lia | reflexivity]|].
  split.
  { unfold locked_copy. cbn [started]. rewrite !started_app, Hst1.
    destruct k1; [lia | reflexivity]. }
  split; [reflexivity|].
  unfold mkfs_command. cbn [Args Command]. rewrite last_last.
  apply Join_dev_either.
Qed.

(** ** Operations one after the other, on a system that works *)

Section Healthy.

Variable TrimSpace : string -> string.
Variable sys : System.
Hypothesis healthy : forall h c, output_err (sys h c) = None.

Lemma healthy_run_outcome (h : list event) (c : Cmd) (evs : list event)
    (r : Output) :
  run_outcome sys retries h c evs r ->
  evs = [EvStart c; EvExit c true] /\ output_err r = None.
Proof.
  intros Hrun.
  destruct (run_outcome_first_success sys retries 0 h c evs r)
    as [-> ->]; [unfold retries; lia | intros i Hi; lia | apply healthy
                | exact Hrun |].
  split; [reflexivity | apply healthy].
Qed.

Lemma healthy_runCommand (cmd : string) (args : list string) (w : World) :
  mutex w = false ->
  exists r,
    GlobalMutex.runCommand TrimSpace sys cmd args w
    = Some (r, emit (locked [EvStart (Command cmd args);
                             EvExit (Command cmd args) true]) w)
    /\ output_err r = None.
Proof.
  intros Hfree.
  destruct (GlobalMutex_runCommand_outcome TrimSpace sys cmd args w Hfree)
    as (evs & r & Hrun & Hout).
  destruct (healthy_run_outcome _ _ _ _ Hout) as [-> Hok].
  exists (trimmed TrimSpace r). split; [exact Hrun | exact Hok].
Qed.

Lemma healthy_createLogicalThinPool (vgname lvpool : string) (w : World) :
  mutex w = false ->
  let c := Command "lvcreate"
             ["--thinpool"; lvpool; "--extents"; "90%FREE"; vgname] in
  exists r,
    GlobalMutex.createLogicalThinPool TrimSpace sys vgname lvpool w
    = Some (r, emit (locked [EvStart c; EvExit c true]) w)
    /\ output_err r = None.
Proof.
  intros Hfree c.
  destruct (healthy_runCommand "lvcreate"
              ["--thinpool"; lvpool; "--extents"; "90%FREE"; vgname]
              w Hfree) as (r & Hrun & Hok).
  exists r. split; [|exact Hok].
  rewrite (GlobalMutex_createLogicalThinPool_run TrimSpace sys
             vgname lvpool w _ _ Hrun).
  now rewrite Hok.
Qed.

Lemma healthy_createLVMVolume
    (lvname vgname lvpool size fstype parent : string) (kind : Kind)
    (w : World) :
  mutex w = false ->
  let create := lvcreate_command lvname vgname lvpool size parent in
  let act := lvchange_command vgname lvname in
  let mkfs := mkfs_command vgname lvname fstype in
  exists r,
    GlobalMutex.createLVMVolume TrimSpace sys
      lvname vgname lvpool size fstype parent kind w
    = Some (r,
            emit (locked [EvStart create; EvExit create true]
                  ++ locked [EvStart act; EvExit act true]
                  ++ (if (parent =? "")%string
                      then locked [EvStart mkfs; EvExit mkfs true]
                      else [])) w)
    /\ output_err r = None.
Proof.
  intros Hfree create act mkfs.
  destruct (GlobalMutex_createLVMVolume_creation TrimSpace sys
              lvname vgname lvpool size fstype parent kind w Hfree)
    as (evs & r & Hrun & Hc).
  exists r.
  destruct Hc as [ev1 r1 e O1 E1 | ev1 ev2 r1 r2 e O1 E1 O2 E2
                 | ev1 ev2 r1 r2 O1 E1 O2 E2 Hp
                 | ev1 ev2 ev3 r1 r2 r3 O1 E1 O2 E2 Hp O3].
  - destruct (healthy_run_outcome _ _ _ _ O1) as [_ Hok]. congruence.
  - destruct (healthy_run_outcome _ _ _ _ O2) as [_ Hok]. congruence.
  - destruct (healthy_run_outcome _ _ _ _ O1) as [-> _].
    destruct (healthy_run_outcome _ _ _ _ O2) as [-> Hok].
    apply String.eqb_neq in Hp. rewrite Hp, app_nil_r.
    split; [exact Hrun | exact Hok].
  - destruct (healthy_run_outcome _ _ _ _ O1) as [-> _].
    destruct (healthy_run_outcome _ _ _ _ O2) as [-> _].
    destruct (healthy_run_outcome _ _ _ _ O3) as [-> Hok].
    apply String.eqb_eq in Hp. rewrite Hp.
    split; [exact Hrun | exact Hok].
Qed.

Lemma healthy_volumes
    (drive vgname lvpool lvname size fstype snapshot : string)
    (kind : Kind) (w : World) :
  mutex w = false ->
  lvname <> EmptyString ->
  exists r evs,
    (GlobalMutex.createVolumeGroup TrimSpace sys drive vgname ;;;
     GlobalMutex.createLogicalThinPool TrimSpace sys vgname lvpool ;;;
     GlobalMutex.createLVMVolume TrimSpace sys
       lvname vgname lvpool size fstype "" kind ;;;
     GlobalMutex.createLVMVolume TrimSpace sys
       snapshot vgname lvpool size fstype lvname kind) w
    = Some (r, emit evs w)
    /\ started evs
       = [Command "vgcreate" [vgname; drive];
          Command "lvcreate"
            ["--thinpool"; lvpool; "--extents"; "90%FREE"; vgname];
          Command "lvcreate"
            ["--virtualsize"; size; "--name"; lvname;
             "--thin"; (vgname ++ "/" ++ lvpool)%string];
          Command "lvchange"
            ["-K"; (vgname ++ "/" ++ lvname)%string; "-a"; "y"];
          mkfs_command vgname lvname fstype;
          Command "lvcreate"
            ["--name"; snapshot;
             "--snapshot"; (vgname ++ "/" ++ lvname)%string];
          Command "lvchange"
            ["-K"; (vgname ++ "/" ++ snapshot)%string; "-a"; "y"]]
    /\ finished evs = started evs
    /\ sleeps evs = []
    /\ output_err r = None.
Proof.
  intros Hfree Hname.
  destruct (healthy_runCommand "vgcreate" [vgname; drive] w Hfree)
    as (r1 & H1 & _).
  match type of H1 with
  | _ = Some (_, ?w1) =>
      destruct (healthy_createLogicalThinPool vgname lvpool w1 Hfree)
        as (r2 & H2 & _)
  end.
  match type of H2 with
  | _ = Some (_, ?w2) =>
      destruct (healthy_createLVMVolume lvname vgname lvpool size fstype ""
                  kind w2 Hfree) as (r3 & H3 & _)
  end.
  match type of H3 with
  | _ = Some (_, ?w3) =>
      destruct (healthy_createLVMVolume snapshot vgname lvpool size fstype
                  lvname kind w3 Hfree) as (r4 & H4 & Hok)
  end.
  apply String.eqb_neq in Hname.
  eexists r4, _. split.
  - unfold GlobalMutex.createVolumeGroup, bind.
    rewrite H1, H2, H3, H4, !emit_emit. reflexivity.
  - rewrite Hname. unfold lvcreate_command. rewrite Hname.
    cbn. repeat split. exact Hok.
Qed.

End Healthy.

(** X9. On a system where every command succeeds, creating the group, the
    pool, a volume without parent and then a snapshot of that volume, one
    after the other, starts exactly seven processes in this order:
    [vgcreate], [lvcreate --thinpool], [lvcreate --virtualsize],
    [lvchange -a y] and [mkfs.<fstype>] for the volume, then
    [lvcreate --snapshot] and [lvchange -a y] for the snapshot, which is
    not formatted.  Each process ends without error, nothing sleeps, and
    the last call returns a nil error.  The name of the volume must not be
    empty: with an empty parent the last call would create a fresh
    volume. *)
Theorem volumes_on_a_healthy_system (TrimSpace : string -> string)
    (sys : System)
    (drive vgname lvpool lvname size fstype snapshot : string)
    (kind : Kind) (w : World) :
  mutex w = false ->
  (forall h c, output_err (sys h c) = None) ->
  lvname <> EmptyString ->
  exists r evs,
    (GlobalMutex.createVolumeGroup TrimSpace sys drive vgname ;;;
     GlobalMutex.createLogicalThinPool TrimSpace sys vgname lvpool ;;;
     GlobalMutex.createLVMVolume TrimSpace sys
       lvname vgname lvpool size fstype "" kind ;;;
     GlobalMutex.createLVMVolume TrimSpace sys
       snapshot vgname lvpool size fstype lvname kind) w
    = Some (r, emit evs w)
    /\ started evs
       = [Command "vgcreate" [vgname; drive];
          Command "lvcreate"
            ["--thinpool"; lvpool; "--extents"; "90%FREE"; vgname];
          Command "lvcreate"
            ["--virtualsize"; size; "--name"; lvname;
             "--thin"; (vgname ++ "/" ++ lvpool)%string];
          Command "lvchange"
            ["-K"; (vgname ++ "/" ++ lvname)%string; "-a"; "y"];
          mkfs_command vgname lvname fstype;
          Command "lvcreate"
            ["--name"; snapshot;
             "--snapshot"; (vgname ++ "/" ++ lvname)%string];
          Command "lvchange"
            ["-K"; (vgname ++ "/" ++ snapshot)%string; "-a"; "y"]]
    /\ finished evs = started evs
    /\ sleeps evs = []
    /\ output_err r = None.
Proof.
  intros Hfree Hhealthy Hname. now apply healthy_volumes.
Qed.

Lemma volumes_on_a_healthy_system_witness :
  mutex idle = false
  /\ (forall h c, output_err (fails_first 0 h c) = None)
  /\ "lv1"%string <> EmptyString
  /\ exists r evs,
       (GlobalMutex.createVolumeGroup TrimSpace_ascii (fails_first 0)
          "/dev/sdb" "vg0" ;;;
        GlobalMutex.createLogicalThinPool TrimSpace_ascii (fails_first 0)
          "vg0" "pool0" ;;;
        GlobalMutex.createLVMVolume TrimSpace_ascii (fails_first 0)
          "lv1" "vg0" "pool0" "1G" "ext4" "" KindActive ;;;
        GlobalMutex.createLVMVolume TrimSpace_ascii (fails_first 0)
          "lv2" "vg0" "pool0" "1G" "ext4" "lv1" KindActive) idle
       = Some (r, emit evs idle)
       /\ started evs
          = [Command "vgcreate" ["vg0"; "/dev/sdb"];
             Command "lvcreate"
               ["--thinpool"; "pool0"; "--extents"; "90%FREE"; "vg0"];
             Command "lvcreate"
               ["--virtualsize"; "1G"; "--name"; "lv1";
                "--thin"; "vg0/pool0"];
             Command "lvchange" ["-K"; "vg0/lv1"; "-a"; "y"];
             Command "mkfs.ext4"
               ["-E"; "nodiscard,lazy_itable_init=0,lazy_journal_init=0";
                "/dev/vg0/lv1"];
             Command "lvcreate" ["--name"; "lv2"; "--snapshot"; "vg0/lv1"];
             Command "lvchange" ["-K"; "vg0/lv2"; "-a"; "y"]].
Proof.
  split; [reflexivity|]. split; [reflexivity|]. split; [discriminate|].
  destruct (volumes_on_a_healthy_system TrimSpace_ascii (fails_first 0)
              "/dev/sdb" "vg0" "pool0" "lv1" "1G" "ext4" "lv2" KindActive
              idle eq_refl (fun _ _ => eq_refl))
    as (r & evs & Hrun & Hst & _); [discriminate|].
  exists r, evs. split; [exact Hrun | exact Hst].
Defined.

(** ** What an operation returns *)

Section LastProcess.

Variable TrimSpace : string -> string.
Variable sys : System.

Lemma failed_attempts_last (c : Cmd) (k : nat) :
  failed_attempts c (S k)
  = failed_attempts c k
    ++ [EvStart c; EvExit c false; EvSleep (100000 * Nanosecond)%Z].
Proof.
  induction k as [|k IH]; [reflexivity|].
  cbn [failed_attempts app] in *. do 3 f_equal. exact IH.
Qed.

(** The answer of a run is the answer of the last process it started. *)
Lemma run_outcome_last_start (m : nat) (h : list event) (c : Cmd)
    (evs : list event) (r : Output) :
  run_outcome sys m h c evs r ->
  exists pre post,
    evs = pre ++ EvStart c :: post
    /\ started post = []
    /\ r = sys (h ++ pre) c.
Proof.
  intros [j _ _ _ | j Hm _].
  - exists (failed_attempts c j), [EvExit c true]. repeat split.
  - subst m. rewrite failed_attempts_last.
    exists (failed_attempts c j),
      [EvExit c false; EvSleep (100000 * Nanosecond)%Z].
    repeat split.
Qed.

Lemma from_last_process_between (h a b evs : list event) (r : Output) :
  from_last_process TrimSpace sys (h ++ a) evs r ->
  started b = [] ->
  from_last_process TrimSpace sys h (a ++ evs ++ b) r.
Proof.
  intros (pre & c & post & -> & Hpost & Hout & Herr) Hb.
  exists (a ++ pre), c, (post ++ b). split; [|split; [|split]].
  - rewrite <- !app_assoc. reflexivity.
  - now rewrite started_app, Hpost, Hb.
  - now rewrite app_assoc.
  - now rewrite app_assoc.
Qed.

Lemma from_last_process_run (m : nat) (h : list event) (c : Cmd)
    (evs : list event) (r : Output) :
  run_outcome sys m h c evs r ->
  from_last_process TrimSpace sys h evs (trimmed TrimSpace r).
Proof.
  intros Hrun.
  destruct (run_outcome_last_start _ _ _ _ _ Hrun)
    as (pre & post & -> & Hpost & ->).
  exists pre, c, post. repeat split; auto.
Qed.

Lemma Reports_GlobalMutex_runCommand (cmd : string) (args : list string) :
  Reports true TrimSpace sys (GlobalMutex.runCommand TrimSpace sys cmd args).
Proof.
  intros w Hfree.
  destruct (GlobalMutex_runCommand_outcome TrimSpace sys cmd args w
              (Hfree eq_refl)) as (evs & r & Hrun & Hout).
  exists (trimmed TrimSpace r), (locked evs). split; [exact Hrun|].
  apply (from_last_process_between (log w) [EvLock package_mutex]
           [EvUnlock package_mutex]); [|reflexivity].
  exact (from_last_process_run _ _ _ _ _ Hout).
Qed.

Lemma Reports_LockArg_runCommand (free : bool) (cmd : string)
    (args : list string) :
  Reports free TrimSpace sys (LockArg.runCommand TrimSpace sys cmd args).
Proof.
  intros w _.
  destruct (LockArg_runCommand_outcome TrimSpace sys cmd args w)
    as (evs & r & Hrun & Hout).
  exists (trimmed TrimSpace r), evs. split; [exact Hrun|].
  exact (from_last_process_run _ _ _ _ _ Hout).
Qed.

Lemma Reports_bind (free : bool) (m : M Output) (k : Output -> M Output) :
  Reports free TrimSpace sys m ->
  (forall a, Follows free TrimSpace sys a (k a)) ->
  Reports free TrimSpace sys (bind m k).
Proof.
  intros Hm Hk w Hfree.
  destruct (Hm w Hfree) as (a & ev1 & Hrun1 & Hlast).
  destruct (Hk a (emit ev1 w) Hfree) as (r & ev2 & Hrun2 & Hr).
  exists r, (ev1 ++ ev2). split.
  - unfold bind. now rewrite Hrun1, Hrun2, emit_emit.
  - destruct Hr as [(Hnone & Hout & Herr) | Hlast2].
    + destruct Hlast as (pre & c & post & -> & Hpost & Hout1 & Herr1).
      exists pre, c, (post ++ ev2). split; [|split; [|split]].
      * now rewrite <- app_assoc.
      * now rewrite started_app, Hpost, Hnone.
      * congruence.
      * rewrite Herr. exact Herr1.
    + pose proof (from_last_process_between (log w) ev1 [] ev2 r Hlast2
                    eq_refl) as H.
      now rewrite app_nil_r in H.
Qed.

Lemma Follows_Return (free : bool) (a r : Output) :
  output_bytes r = output_bytes a ->
  (output_err r = None <-> output_err a = None) ->
  Follows free TrimSpace sys a (Return r).
Proof.
  intros Hout Herr w _. exists r, []. split.
  - unfold Return. now rewrite emit_nil.
  - left. repeat split; try assumption; apply Herr.
Qed.

Lemma Follows_Reports (free : bool) (a : Output) (op : M Output) :
  Reports free TrimSpace sys op -> Follows free TrimSpace sys a op.
Proof.
  intros Hop w Hfree. destruct (Hop w Hfree) as (r & evs & Hrun & Hlast).
  exists r, evs. split; [exact Hrun | right; exact Hlast].
Qed.

Lemma Reports_with_lock (free : bool) (body : M Output) :
  Reports free TrimSpace sys body ->
  Reports free TrimSpace sys (LockArg.with_lock false body).
Proof.
  intros Hbody w Hfree.
  destruct (Hbody (emit [EvLock lock_argument] w) Hfree)
    as (r & evs & Hrun & Hlast).
  exists r, (locked_copy evs). split.
  - now apply with_lock_unlocked.
  - apply (from_last_process_between (log w) [EvLock lock_argument]
             [EvUnlock lock_argument]); [exact Hlast | reflexivity].
Qed.

(** An error that is wrapped is still an error. *)
Lemma Follows_wrapped (free : bool) (a : Output) (e : error)
    (message : string) :
  output_err a = Some e ->
  Follows free TrimSpace sys a
    (Return (mkOutput (output_bytes a) (Wrap (Some e) message))).
Proof.
  intros He. apply Follows_Return; [reflexivity|].
  cbn [output_err Wrap]. rewrite He. split; discriminate.
Qed.

Lemma Reports_GlobalMutex_perform (c : GlobalMutex.call) :
  GlobalMutex_reports c = true ->
  Reports true TrimSpace sys (GlobalMutex.perform TrimSpace sys c).
Proof.
  destruct c; try discriminate; intros _; cbv beta iota zeta delta
    [GlobalMutex.perform GlobalMutex.createLVMVolume
     GlobalMutex.removeLVMVolume GlobalMutex.createVolumeGroup
     GlobalMutex.deleteVolumeGroup
     GlobalMutex.checkVG GlobalMutex.checkLV GlobalMutex.toggleactivateLV
     GlobalMutex.toggleactivateVG].
  all: try apply Reports_GlobalMutex_runCommand.
  - (* createLVMVolume *)
    apply Reports_bind; [apply Reports_GlobalMutex_runCommand|].
    intros r. destruct (output_err r) as [e|] eqn:He.
    { now apply Follows_wrapped. }
    apply Follows_Reports.
    apply Reports_bind; [apply Reports_GlobalMutex_runCommand|].
    intros r2. destruct (output_err r2) as [e|] eqn:He2.
    { now apply Follows_wrapped. }
    destruct (parent =? "")%string.
    + apply Follows_Reports, Reports_GlobalMutex_runCommand.
    + apply Follows_Return; [reflexivity | tauto].
  - (* removeLVMVolume *)
    apply Reports_bind; [apply Reports_GlobalMutex_runCommand|].
    intros r. destruct (output_err r) as [e|] eqn:He.
    + now apply Follows_wrapped.
    + apply Follows_Reports, Reports_GlobalMutex_runCommand.
Qed.

Lemma Reports_LockArg_perform (c : LockArg.call) :
  LockArg_reports c = true ->
  Reports false TrimSpace sys (LockArg.perform TrimSpace sys false c).
Proof.
  destruct c; try discriminate; intros _; cbv beta iota zeta delta
    [LockArg.perform LockArg.createLVMVolume
     LockArg.removeLVMVolume LockArg.createVolumeGroup
     LockArg.deleteVolumeGroup
     LockArg.checkVG LockArg.checkLV LockArg.toggleactivateLV
     LockArg.toggleactivateVG].
  all: apply Reports_with_lock.
  all: try apply Reports_LockArg_runCommand.
  - (* createLVMVolume *)
    apply Reports_bind; [apply Reports_LockArg_runCommand|].
    intros r. destruct (output_err r) as [e|] eqn:He.
    + now apply Follows_wrapped.
    + apply Follows_Return; [reflexivity | tauto].
  - (* removeLVMVolume *)
    apply Reports_bind; [apply Reports_LockArg_runCommand|].
    intros r. destruct (output_err r) as [e|] eqn:He.
    + destruct (negb (strings.Contains (output_bytes r) "not mounted")).
      * now apply Follows_wrapped.
      * apply Follows_Reports, Reports_LockArg_runCommand.
    + apply Follows_Reports, Reports_LockArg_runCommand.
Qed.

End LastProcess.

(** X10. In the revision with the package-level mutex every lifecycle call
    other than the creation of the pool returns what the last process it
    started gave: its output is the trimmed output of that process, and
    its error is nil exactly when that process ended without error.  For a
    call of several steps this is the last step that ran; an error may come
    back wrapped, it is never dropped. *)
Theorem GlobalMutex_result_of_last_process (TrimSpace : string -> string)
    (sys : System) (c : GlobalMutex.call) (w : World) :
  mutex w = false ->
  GlobalMutex_reports c = true ->
  exists r evs pre cmd post,
    GlobalMutex.perform TrimSpace sys c w = Some (r, emit evs w)
    /\ evs = pre ++ EvStart cmd :: post
    /\ started post = []
    /\ output_bytes r = TrimSpace (output_bytes (sys (log w ++ pre) cmd))
    /\ (output_err r = None <-> output_err (sys (log w ++ pre) cmd) = None).
Proof.
  intros Hfree Hc.
  destruct (Reports_GlobalMutex_perform TrimSpace sys c Hc w
              (fun _ => Hfree))
    as (r & evs & Hrun & pre & cmd & post & Hevs & Hpost & Hout & Herr).
  exists r, evs, pre, cmd, post. repeat split; try assumption; apply Herr.
Qed.

Lemma GlobalMutex_result_of_last_process_witness :
  mutex idle = false
  /\ GlobalMutex_reports (GlobalMutex.RemoveLVMVolume "lv1" "vg0") = true
  /\ exists r evs pre cmd post,
       GlobalMutex.perform TrimSpace_ascii mkfs_fails
         (GlobalMutex.RemoveLVMVolume "lv1" "vg0") idle
       = Some (r, emit evs idle)
       /\ evs = pre ++ EvStart cmd :: post
       /\ started post = []
       /\ output_bytes r
          = TrimSpace_ascii (output_bytes (mkfs_fails (log idle ++ pre) cmd))
       /\ (output_err r = None
           <-> output_err (mkfs_fails (log idle ++ pre) cmd) = None).
Proof.
  split; [reflexivity|]. split; [reflexivity|].
  exact (GlobalMutex_result_of_last_process TrimSpace_ascii mkfs_fails
           (GlobalMutex.RemoveLVMVolume "lv1" "vg0") idle eq_refl eq_refl).
Defined.

(** X11. In the revision with the lock argument every call that receives an
    unlocked mutex, other than [formatVolume] and the creation of the pool,
    returns what the last process it started gave: the trimmed output of
    that process, and a nil error exactly when that process ended without
    error.  For a removal whose [umount] failed on a volume that was not
    mounted this is the result of [lvremove]. *)
Theorem LockArg_result_of_last_process (TrimSpace : string -> string)
    (sys : System) (c : LockArg.call) (w : World) :
  LockArg_reports c = true ->
  exists r evs pre cmd post,
    LockArg.perform TrimSpace sys false c w = Some (r, emit evs w)
    /\ evs = pre ++ EvStart cmd :: post
    /\ started post = []
    /\ output_bytes r = TrimSpace (output_bytes (sys (log w ++ pre) cmd))
    /\ (output_err r = None <-> output_err (sys (log w ++ pre) cmd) = None).
Proof.
  intros Hc.
  destruct (Reports_LockArg_perform TrimSpace sys c Hc w)
    as (r & evs & Hrun & pre & cmd & post & Hevs & Hpost & Hout & Herr);
    [discriminate|].
  exists r, evs, pre, cmd, post. repeat split; try assumption; apply Herr.
Qed.

Lemma LockArg_result_of_last_process_witness :
  LockArg_reports (LockArg.RemoveLVMVolume "lv1" "vg0") = true
  /\ exists r evs pre cmd post,
       LockArg.perform TrimSpace_ascii not_mounted false
         (LockArg.RemoveLVMVolume "lv1" "vg0") idle
       = Some (r, emit evs idle)
       /\ evs = pre ++ EvStart cmd :: post
       /\ started post = []
       /\ output_bytes r
          = TrimSpace_ascii
              (output_bytes (not_mounted (log idle ++ pre) cmd))
       /\ (output_err r = None
           <-> output_err (not_mounted (log idle ++ pre) cmd) = None).
Proof.
  split; [reflexivity|].
  exact (LockArg_result_of_last_process TrimSpace_ascii not_mounted
           (LockArg.RemoveLVMVolume "lv1" "vg0") idle eq_refl).
Defined.

(** ** Callers of the revision with the lock argument *)

Section Launch.

Variable TrimSpace : string -> string.

Lemma run_outcome_first_start (sys : System) (m : nat) (h : list event)
    (c : Cmd) (evs : list event) (r : Output) :
  run_outcome sys m h c evs r -> exists rest, evs = EvStart c :: rest.
Proof.
  intros [[|j] _ _ _ | j Hm _].
  - eexists. reflexivity.
  - eexists. reflexivity.
  - subst m. eexists. reflexivity.
Qed.

Lemma Starts_LockArg_runCommand (sys : System) (free : bool) (cmd : string)
    (args : list string) :
  Starts free (LockArg.runCommand TrimSpace sys cmd args).
Proof.
  intros w _.
  destruct (LockArg_runCommand_outcome TrimSpace sys cmd args w)
    as (evs & r & Hrun & Hout).
  destruct (run_outcome_first_start _ _ _ _ _ _ Hout) as (rest & ->).
  eauto.
Qed.

Lemma Starts_bind {A B : Type} (free : bool) (lo hi : nat) (m : M A)
    (k : A -> M B) :
  Starts free m -> (forall a, Runs free lo hi (k a)) -> Starts free (bind m k).
Proof.
  intros Hm Hk w Hfree.
  destruct (Hm w Hfree) as (a & cmd & rest & Hrun1).
  destruct (Hk a (emit (EvStart cmd :: rest) w) Hfree)
    as (b & ev2 & Hrun2 & _).
  exists b, cmd, (rest ++ ev2). unfold bind.
  now rewrite Hrun1, Hrun2, emit_emit.
Qed.

(** The events of a call begin with the start of its first command, after
    the lock of the copy when the function takes the lock. *)
Lemma LockArg_perform_first_events (sys : System) (c : LockArg.call) :
  exists cmd rest,
    events_of (LockArg.perform TrimSpace sys false c)
    = (if takes_lock c then [EvLock lock_argument] else [])
      ++ EvStart cmd :: rest.
Proof.
  assert (Hlock : forall body : M Output,
            Starts false body ->
            exists cmd rest,
              events_of (LockArg.with_lock false body)
              = [EvLock lock_argument] ++ EvStart cmd :: rest).
  { intros body Hbody.
    destruct (Hbody (emit [EvLock lock_argument] idle))
      as (a & cmd & rest & Hrun); [discriminate|].
    exists cmd, (rest ++ [EvUnlock lock_argument]).
    unfold events_of.
    now rewrite (with_lock_unlocked body idle a _ Hrun). }
  destruct c; cbv beta iota zeta delta
    [LockArg.perform LockArg.formatVolume LockArg.createLVMVolume
     LockArg.removeLVMVolume LockArg.createVolumeGroup
     LockArg.createLogicalThinPool LockArg.deleteVolumeGroup
     LockArg.checkVG LockArg.checkLV LockArg.toggleactivateLV
     LockArg.toggleactivateVG takes_lock].
  all: try (apply Hlock; apply Starts_LockArg_runCommand).
  - (* formatVolume *)
    match goal with
    | |- exists cmd rest, events_of ?op = _ =>
        assert (Hs : Starts false op)
    end.
    { apply (Starts_bind false 0 0); [|intros; apply Runs_Return].
      apply (Starts_bind false 0 0); [|intros; apply Runs_Return].
      apply Starts_LockArg_runCommand. }
    destruct (Hs idle) as (a & cmd & rest & Hrun); [discriminate|].
    exists cmd, rest. unfold events_of. now rewrite Hrun.
  - (* createLVMVolume *)
    apply Hlock. apply (Starts_bind false 0 0);
      [apply Starts_LockArg_runCommand|].
    intros r. destruct (output_err r); apply Runs_Return.
  - (* removeLVMVolume *)
    apply Hlock. apply (Starts_bind false 0 10);
      [apply Starts_LockArg_runCommand|].
    intros r. destruct (output_err r) as [e|].
    + destruct (negb (strings.Contains (output_bytes r) "not mounted")).
      * eapply Runs_weaken; [apply Runs_Return | lia | lia].
      * eapply Runs_weaken;
          [apply Runs_LockArg_runCommand | lia | lia].
    + eapply Runs_weaken; [apply Runs_LockArg_runCommand | lia | lia].
  - (* createLogicalThinPool *)
    apply Hlock. apply (Starts_bind false 0 0);
      [apply Starts_LockArg_runCommand|].
    intros r. destruct (output_err r) as [e|]; [|apply Runs_Return].
    destruct (Error e =? "exit status 5")%string; apply Runs_Return.
Qed.

Lemma nth_error_middle {A : Type} (l1 l2 : list A) (a : A) :
  nth_error (l1 ++ a :: l2) (length l1) = Some a.
Proof. induction l1 as [|x l1 IH]; [reflexivity | exact IH]. Qed.

Lemma replace_nth_middle {A : Type} (l1 l2 : list A) (a a' : A) :
  replace_nth (length l1) a' (l1 ++ a :: l2) = l1 ++ a' :: l2.
Proof.
  induction l1 as [|x l1 IH]; [reflexivity|]. simpl. now rewrite IH.
Qed.

(** A launchable goroutine gets its process started, whatever the others
    do and whether the package-level mutex is held or not. *)
Lemma launch (held : bool) (l1 l2 : list goroutine) (g : goroutine) :
  launchable g ->
  exists s g',
    run_schedule s (mkMachine held (l1 ++ g :: l2))
    = Some (mkMachine held (l1 ++ g' :: l2))
    /\ is_running g' = true.
Proof.
  intros [Hcopy (cmd & rest & [Htodo | Htodo])].
  - exists [length l1], (mkGoroutine rest (copy_locked g) (Some cmd)).
    split; [|reflexivity].
    cbn [run_schedule]. unfold schedule. cbn [goroutines package_lock].
    rewrite nth_error_middle. unfold step_goroutine. rewrite Htodo.
    now rewrite replace_nth_middle.
  - exists [length l1; length l1], (mkGoroutine rest true (Some cmd)).
    split; [|reflexivity].
    cbn [run_schedule]. unfold schedule. cbn [goroutines package_lock].
    rewrite nth_error_middle. unfold step_goroutine at 1.
    rewrite Htodo, Hcopy, replace_nth_middle.
    cbn [goroutines package_lock]. rewrite nth_error_middle.
    unfold step_goroutine. cbn [todo copy_locked running].
    now rewrite replace_nth_middle.
Qed.

Lemma launch_all (held : bool) (l2 : list goroutine) :
  Forall launchable l2 ->
  forall l1,
  exists s l2',
    run_schedule s (mkMachine held (l1 ++ l2))
    = Some (mkMachine held (l1 ++ l2'))
    /\ length l2' = length l2
    /\ forallb is_running l2' = true.
Proof.
  induction 1 as [|g l2 Hg _ IH]; intros l1.
  - exists [], []. repeat split.
  - destruct (launch held l1 l2 g Hg) as (s1 & g' & Hrun1 & Hg').
    destruct (IH (l1 ++ [g'])) as (s2 & l2' & Hrun2 & Hlen & Hall).
    exists (s1 ++ s2), (g' :: l2').
    rewrite run_schedule_app, Hrun1.
    rewrite <- !app_assoc in Hrun2. cbn [app] in Hrun2.
    split; [exact Hrun2|]. split; [simpl; now rewrite Hlen|].
    simpl. now rewrite Hg', Hall.
Qed.

Lemma filter_all_true {A : Type} (f : A -> bool) (l : list A) :
  forallb f l = true -> length (filter f l) = length l.
Proof.
  induction l as [|x l IH]; simpl; [reflexivity|].
  intros H. apply andb_prop in H as [Hx Hl]. rewrite Hx. simpl.
  now rewrite IH.
Qed.

End Launch.

(** X12. The lock argument holds nobody back: whatever the calls of the
    callers of that revision, who pass their unlocked mutex, and however
    many they are, some interleaving has the processes of all of them in
    flight at the same time. *)
Theorem LockArg_callers_all_in_flight (TrimSpace : string -> string)
    (callers : list (System * LockArg.call)) :
  exists s m,
    run_schedule s (spawn (LockArg_programs TrimSpace callers)) = Some m
    /\ in_flight m = length callers.
Proof.
  assert (Hall : Forall launchable
                   (map (fun p => mkGoroutine p false None)
                      (LockArg_programs TrimSpace callers))).
  { unfold LockArg_programs. rewrite map_map. apply Forall_forall.
    intros g Hg. apply in_map_iff in Hg as ([sys c] & <- & _).
    split; [reflexivity|]. cbn [todo fst snd].
    destruct (LockArg_perform_first_events TrimSpace sys c)
      as (cmd & rest & ->).
    exists cmd, rest. destruct (takes_lock c); [right | left]; reflexivity. }
  destruct (launch_all false _ Hall []) as (s & l2' & Hrun & Hlen & Hrunning).
  exists s, (mkMachine false l2'). split; [exact Hrun|].
  unfold in_flight. cbn [goroutines].
  rewrite (filter_all_true _ _ Hrunning), Hlen.
  unfold LockArg_programs. now rewrite !length_map.
Qed.

(** ** The operations of one command *)

Section OneCommand.

Variable TrimSpace : string -> string.
Variable sys : System.

Lemma only_runs_GlobalMutex_runCommand (cmd : string) (args : list string)
    (w : World) :
  mutex w = false ->
  only_runs (GlobalMutex.runCommand TrimSpace sys cmd args) w
    (Command cmd args).
Proof.
  intros Hfree.
  destruct (GlobalMutex_runCommand_outcome TrimSpace sys cmd args w Hfree)
    as (evs & r & Hrun & Hout).
  destruct (run_outcome_started sys _ _ _ _ _ Hout) as (k & Hk & Hst).
  exists (trimmed TrimSpace r), (locked evs), k.
  split; [exact Hrun|]. split; [exact Hk|]. now rewrite started_locked.
Qed.

Lemma only_runs_LockArg_runCommand (cmd : string) (args : list string)
    (w : World) :
  only_runs
    (LockArg.with_lock false (LockArg.runCommand TrimSpace sys cmd args)) w
    (Command cmd args).
Proof.
  destruct (LockArg_runCommand_outcome TrimSpace sys cmd args
              (emit [EvLock lock_argument] w)) as (evs & r & Hrun & Hout).
  destruct (run_outcome_started sys _ _ _ _ _ Hout) as (k & Hk & Hst).
  exists (trimmed TrimSpace r), (locked_copy evs), k.
  split; [now apply with_lock_unlocked|]. split; [exact Hk|].
  unfold locked_copy. cbn [started]. rewrite started_app, Hst. simpl.
  now rewrite app_nil_r.
Qed.

End OneCommand.

(** X13. The operations of one command start only that command, one to ten
    times, in both revisions: [createVolumeGroup] runs
    [vgcreate <vgname> <drive>], [deleteVolumeGroup] [vgremove -y <vgname>],
    [checkVG] [vgs <vgname> --options vg_name --no-headings], [checkLV]
    [lvs <vgname>/<lvname> --options lv_name --no-heading],
    [toggleactivateLV] [lvchange -K <vgname>/<lvname> -a y] or [-a n], and
    [toggleactivateVG] [vgchange -K <vgname> -a y] or [-a n]. *)
Theorem operations_of_one_command (TrimSpace : string -> string)
    (sys : System) (drive vgname lvname : string) (activate : bool)
    (w : World) :
  mutex w = false ->
  let yn := if activate then "y"%string else "n"%string in
  let vgcreate := Command "vgcreate" [vgname; drive] in
  let vgremove := Command "vgremove" ["-y"; vgname] in
  let vgs := Command "vgs" [vgname; "--options"; "vg_name"; "--no-headings"]
  in
  let lvs :=
    Command "lvs" [(vgname ++ "/" ++ lvname)%string;
                   "--options"; "lv_name"; "--no-heading"] in
  let lvchange :=
    Command "lvchange" ["-K"; (vgname ++ "/" ++ lvname)%string; "-a"; yn] in
  let vgchange := Command "vgchange" ["-K"; vgname; "-a"; yn] in
  (only_runs (GlobalMutex.createVolumeGroup TrimSpace sys drive vgname) w
     vgcreate
   /\ only_runs (GlobalMutex.deleteVolumeGroup TrimSpace sys vgname) w
        vgremove
   /\ only_runs (GlobalMutex.checkVG TrimSpace sys vgname) w vgs
   /\ only_runs (GlobalMutex.checkLV TrimSpace sys vgname lvname) w lvs
   /\ only_runs
        (GlobalMutex.toggleactivateLV TrimSpace sys vgname lvname activate)
        w lvchange
   /\ only_runs (GlobalMutex.toggleactivateVG TrimSpace sys vgname activate)
        w vgchange)
  /\ (only_runs (LockArg.createVolumeGroup TrimSpace sys false drive vgname)
        w vgcreate
      /\ only_runs (LockArg.deleteVolumeGroup TrimSpace sys false vgname) w
           vgremove
      /\ only_runs (LockArg.checkVG TrimSpace sys false vgname) w vgs
      /\ only_runs (LockArg.checkLV TrimSpace sys false vgname lvname) w lvs
      /\ only_runs
           (LockArg.toggleactivateLV TrimSpace sys false vgname lvname
              activate) w lvchange
      /\ only_runs
           (LockArg.toggleactivateVG TrimSpace sys false vgname activate) w
           vgchange).
Proof.
  intros Hfree yn vgcreate vgremove vgs lvs lvchange vgchange.
  split.
  - repeat split;
      try (apply only_runs_GlobalMutex_runCommand; exact Hfree);
      unfold GlobalMutex.toggleactivateLV, GlobalMutex.toggleactivateVG,
        lvchange, vgchange, yn;
      destruct activate;
      apply only_runs_GlobalMutex_runCommand; exact Hfree.
  - repeat split;
      try apply only_runs_LockArg_runCommand;
      unfold LockArg.toggleactivateLV, LockArg.toggleactivateVG,
        lvchange, vgchange, yn;
      destruct activate;
      apply only_runs_LockArg_runCommand.
Qed.

Lemma operations_of_one_command_witness :
  mutex idle = false
  /\ only_runs
       (GlobalMutex.toggleactivateLV TrimSpace_ascii always_fails
          "vg0" "lv1" false)
       idle (Command "lvchange" ["-K"; "vg0/lv1"; "-a"; "n"])
  /\ only_runs (LockArg.checkLV TrimSpace_ascii (fails_first 2) false
                  "vg0" "lv1")
       idle
       (Command "lvs" ["vg0/lv1"; "--options"; "lv_name"; "--no-heading"]).
Proof.
  split; [reflexivity|].
  destruct (operations_of_one_command TrimSpace_ascii always_fails
              "/dev/sdb" "vg0" "lv1" false idle eq_refl)
    as [(_ & _ & _ & _ & Hlv & _) _].
  destruct (operations_of_one_command TrimSpace_ascii (fails_first 2)
              "/dev/sdb" "vg0" "lv1" false idle eq_refl)
    as [_ (_ & _ & _ & Hlvs & _)].
  split; [exact Hlv | exact Hlvs].
Defined.
